(** * style-lint.ps1: a shallow embedding of the prose style linter

    The script [skills/de-AI-writing/tools/style-lint.ps1] reads a text file,
    computes paragraph statistics and regular-expression match counts, prints
    a line-referenced report and ends with a PASS/FAIL verdict.

    Modelling choices.
    - A .NET [String] is a list of UTF-16 code units ([N]); every character
      the script names lies in the Basic Multilingual Plane.
    - [Get-Content -Raw] yields the decoded file content (the empty string for
      an empty file); [Get-Content] and [Select-String] read the file line by
      line with [StreamReader.ReadLine].
    - A .NET regular expression is modelled by the function that gives the
      length of its match at the head of a suffix of the input; the scanner
      ([Regex.Matches], [Regex.Split]) resumes after the end of each match.
      Every pattern of the script matches non-empty strings only.
    - [Write-Output] appends one line to the report; the report is the list
      of lines written, in order. *)

From Stdlib Require Import String Ascii DecimalString.
From Stdlib Require Import List NArith ZArith Lia Bool Sorted.
Import ListNotations.

Set Implicit Arguments.

(** ** Text *)

Module Text.

(** A UTF-16 code unit, and a string of them. *)
Abbreviation char := N.
Abbreviation text := (list N).

(** An ASCII literal of the script as UTF-16 code units. *)
Definition str (s : string) : text := map N_of_ascii (list_ascii_of_string s).

(** String interpolation of an [int]: invariant decimal rendering. *)
Definition dec (z : Z) : text := str (NilZero.string_of_int (Z.to_int z)).

Definition LF : char := 10%N.
Definition CR : char := 13%N.

(** [Char.IsWhiteSpace]: Unicode categories Zs, Zl, Zp, and U+0009..U+000D,
    U+0085.  The regular-expression class [\s] denotes the same set. *)
Definition IsWhiteSpace (c : char) : bool :=
  ((9 <=? c) && (c <=? 13) || (c =? 0x20) || (c =? 0x85) || (c =? 0xA0)
   || (c =? 0x1680) || (0x2000 <=? c) && (c <=? 0x200A) || (c =? 0x2028)
   || (c =? 0x2029) || (c =? 0x202F) || (c =? 0x205F) || (c =? 0x3000))%N.

Fixpoint TrimStart (s : text) : text :=
  match s with
  | c :: r => if IsWhiteSpace c then TrimStart r else s
  | [] => []
  end.

Definition TrimEnd (s : text) : text := rev (TrimStart (rev s)).

(** [String.Trim()] *)
Definition Trim (s : text) : text := TrimEnd (TrimStart s).

(** [StreamReader.ReadLine] until the end of the stream: a line ends at a
    line feed, at a carriage return, or at a carriage return immediately
    followed by a line feed; a terminator at the very end opens no further
    line.  [cur] is the line being read, most recent character first. *)
Fixpoint ReadLines_from (cur : text) (s : text) {struct s} : list text :=
  match s with
  | [] => match cur with [] => [] | _ :: _ => [rev cur] end
  | c :: r =>
      if (c =? LF)%N then rev cur :: ReadLines_from [] r
      else if (c =? CR)%N then
        match r with
        | [] => [rev cur]
        | d :: r' =>
            if (d =? LF)%N then rev cur :: ReadLines_from [] r'
            else rev cur :: ReadLines_from [] r
        end
      else ReadLines_from (c :: cur) r
  end.

Definition ReadLines (s : text) : list text := ReadLines_from [] s.

(** [String.Join(sep, parts)] *)
Fixpoint Join (sep : text) (parts : list text) : text :=
  match parts with
  | [] => []
  | [p] => p
  | p :: ps => p ++ sep ++ Join sep ps
  end.

End Text.
Import Text.

(** ** Regular expressions *)

Module Regex.

(** The length of the match that starts at the head of the given suffix. *)
Definition matcher := text -> option nat.

Fixpoint starts_with (p s : text) : bool :=
  match p, s with
  | [], _ => true
  | a :: p', b :: s' => (a =? b)%N && starts_with p' s'
  | _ :: _, [] => false
  end.

(** An alternation [p1|p2|...] of literals: the first alternative, in the
    order written, that matches at the position. *)
Fixpoint alt (ps : list text) : matcher :=
  fun s =>
    match ps with
    | [] => None
    | p :: ps' => if starts_with p s then Some (length p) else alt ps' s
    end.

(** [Regex.Matches(input, pattern).Count]: matches are found left to right
    and do not overlap.  [skip] counts the characters of the current match
    still to be passed over. *)
Fixpoint Matches_from (m : matcher) (skip : nat) (s : text) : nat :=
  match s with
  | [] => 0
  | _ :: r =>
      match skip with
      | S k => Matches_from m k r
      | O =>
          match m s with
          | Some n => S (Matches_from m (pred n) r)
          | None => Matches_from m 0 r
          end
      end
  end.

Definition MatchesCount (m : matcher) (s : text) : nat := Matches_from m 0 s.

(** [Regex.Split(input, pattern)]: the pieces between the matches, each
    match contributing the values of its capture groups ([caps]) between the
    piece before it and the piece after it.  [cur] is the piece being read,
    most recent character first. *)
Fixpoint Split_from (m : text -> option (nat * list text))
    (skip : nat) (cur : text) (s : text) : list text :=
  match s with
  | [] => [rev cur]
  | c :: r =>
      match skip with
      | S k => Split_from m k cur r
      | O =>
          match m s with
          | Some (n, caps) => rev cur :: caps ++ Split_from m (pred n) [] r
          | None => Split_from m 0 (c :: cur) r
          end
      end
  end.

Definition Split (m : text -> option (nat * list text)) (s : text) : list text :=
  Split_from m 0 [] s.

(** [Regex.IsMatch]: the pattern matches somewhere in the input. *)
Fixpoint IsMatch (m : matcher) (s : text) : bool :=
  match m s with
  | Some _ => true
  | None => match s with [] => false | _ :: r => IsMatch m r end
  end.

End Regex.
Import Regex.

(** ** The script *)

Module StyleLint.

(** [param(...)] *)
Record Config := {
  ColonBudget : Z;
  ColonExceptionsQuoteOnly : bool;
  SkipTitleLine : bool
}.

Definition default_config : Config :=
  {| ColonBudget := 2; ColonExceptionsQuoteOnly := true; SkipTitleLine := false |}.

(** *** Pattern literals, [U "\uXXXX..."] *)

Definition er_shi : text := [0x800c; 0x662f]%N.
Definition bu_shi : text := [0x4e0d; 0x662f]%N.
Definition ni_hui : text := [0x4f60; 0x4f1a]%N.
Definition ni : text := [0x4f60]%N.
Definition semicolon : text := [0xff1b]%N.
Definition colonChar : char := 0xff1a%N.
Definition period : text := [0x3002]%N.
Definition exclChar : char := 0xff01%N.
Definition dashPattern : text := [0x2014; 0x2014]%N.
Definition quoteChar : char := 0x201c%N.

Definition roadmark_terms : list text :=
  [ [0x66f4; 0x5173; 0x952e]; [0x66f4; 0x8981; 0x547d];
    [0x6362; 0x53e5; 0x8bdd; 0x8bf4]; [0x4e8b; 0x5b9e; 0x4e0a];
    [0x503c; 0x5f97; 0x6ce8; 0x610f]; [0x603b; 0x4e4b];
    [0x4e0e; 0x6b64; 0x540c; 0x65f6] ]%N.

Definition ai_roadmarks_extra : list text :=
  [ [0x4e0d; 0x53ef; 0x5426; 0x8ba4]; [0x6beb; 0x65e0; 0x7591; 0x95ee];
    [0x7efc; 0x4e0a; 0x6240; 0x8ff0] ]%N.

Definition metaphor_markers : list text :=
  [ [0x5982; 0x540c]; [0x4eff; 0x4f5b]; [0x597d; 0x6bd4]; [0x72b9; 0x5982] ]%N.

Definition double_adj : text := [0x800c; 0x53c8]%N.

(** [$patterns]: each regular expression as the list of its alternatives,
    in the order of the dictionary. *)
Definition patterns : list (string * list text) :=
  [ ("er_shi", [er_shi]); ("bu_shi", [bu_shi]); ("ni_hui", [ni_hui]);
    ("ni", [ni]); ("semicolon", [semicolon]); ("colon", [[colonChar]]);
    ("period", [period]); ("exclamation", [[exclChar]]);
    ("dash", [dashPattern]); ("roadmark_terms", roadmark_terms);
    ("ai_roadmarks_extra", ai_roadmarks_extra);
    ("metaphor_markers", metaphor_markers); ("double_adj", [double_adj]) ]%string.

(** *** Paragraph analysis *)

(** The iterations of [\r?\n] matched greedily at the head of [s]. *)
Fixpoint line_breaks (s : text) : list text :=
  match s with
  | [] => []
  | c :: r =>
      if (c =? LF)%N then [LF] :: line_breaks r
      else if (c =? CR)%N then
        match r with
        | [] => []
        | d :: r' => if (d =? LF)%N then [CR; LF] :: line_breaks r' else []
        end
      else []
  end.

(** [(\r?\n){2,}]: the length of the match and the value of its capture
    group, which is the last iteration. *)
Definition paragraph_break (s : text) : option (nat * list text) :=
  let bs := line_breaks s in
  if 2 <=? length bs then Some (length (concat bs), [last bs []]) else None.

(** [$_ -match "^\r?\n+$"]: an optional carriage return, then line feeds
    only, at least one. *)
Definition only_newlines (s : text) : bool :=
  let r := match s with
           | c :: r => if (c =? CR)%N then r else s
           | [] => s
           end in
  match r with
  | [] => false
  | _ :: _ => forallb (N.eqb LF) r
  end.

(** [$paragraphs] *)
Definition paragraphs (content : text) : list text :=
  filter (fun p => (0 <? length (Trim p)) && negb (only_newlines p))
         (Split paragraph_break (Trim content)).

Definition paragraphCount (content : text) : nat := length (paragraphs content).

(** [$shortParagraphs] *)
Definition shortParagraphs (content : text) : list text :=
  filter (fun p => (length (Trim p) <? 100) && (0 <? length (Trim p)))
         (paragraphs content).

Definition shortParagraphCount (content : text) : nat :=
  length (shortParagraphs content).

(** [$totalParaChars] *)
Definition totalParaChars (content : text) : nat :=
  fold_left (fun acc p => acc + length (Trim p)) (paragraphs content) 0.

(** [[math]::Round(a / b)] for [b > 0]: the quotient is rounded to the
    nearest integer, a midpoint to the even neighbour.  The quotient of two
    [int] values is either exact or a [double] that lies on the same side of
    the midpoint as the exact quotient, so integer arithmetic decides it. *)
Definition MathRound (a b : nat) : nat :=
  let q := a / b in
  let r := a mod b in
  if 2 * r <? b then q
  else if b <? 2 * r then q + 1
  else if Nat.even q then q else q + 1.

(** [$avgParaLen] *)
Definition avgParaLen (content : text) : nat :=
  if 0 <? paragraphCount content
  then MathRound (totalParaChars content) (paragraphCount content)
  else 0.

(** [$headingCount], the matches of [(?m)^##\s]: a match starts at the
    beginning of the text or right after a line feed, so no match starts
    inside another one and counting the starting positions counts the
    matches. *)
Fixpoint heading_matches (bol : bool) (s : text) : nat :=
  match s with
  | [] => 0
  | c :: r =>
      (if bol && match s with
                 | a :: b :: w :: _ =>
                     (a =? 0x23)%N && (b =? 0x23)%N && IsWhiteSpace w
                 | _ => false
                 end
       then 1 else 0) + heading_matches (c =? LF)%N r
  end.

Definition headingCount (content : text) : nat := heading_matches true content.

(** *** Line hits *)

(** A [MatchInfo] of [Select-String]: [LineNumber] (from 1) and [Line]. *)
Abbreviation MatchInfo := (nat * list N)%type.

(** [Select-String -LiteralPath $Path -Pattern p]: the lines of the file in
    which the pattern matches, one hit per line. *)
Definition SelectString (m : matcher) (content : text) : list MatchInfo :=
  filter (fun h => IsMatch m (snd h))
         (combine (seq 1 (length (ReadLines content))) (ReadLines content)).

(** ["  L{0}: {1}" -f $_.LineNumber, $_.Line.Trim()] *)
Definition hit_line (h : MatchInfo) : text :=
  str "  L" ++ dec (Z.of_nat (fst h)) ++ str ": " ++ Trim (snd h).

(** The truth value of a hit collection in a condition: it holds a hit. *)
Definition some_hits (hs : list MatchInfo) : bool :=
  match hs with [] => false | _ :: _ => true end.

(** *** Colon rule *)

(** [$lines[0]].  [Get-Content] gives an array only for two lines or more:
    for a file of one line [$lines] is that line, a [String], and the index
    selects its first character; for an empty file [$lines] is [$null] and
    nothing is counted. *)
Definition firstLine (content : text) : text :=
  match ReadLines content with
  | [] => []
  | [l] => firstn 1 l
  | l :: _ :: _ => l
  end.

(** [$quoteOnlyPattern].  The string built by the script is
    [A|B|C|D|E|F|G\s*:\s*Q] with the seven verbs for [A]..[G], the
    full-width colon for [:] and for [Q] the class of the left double
    quotation mark, the ASCII double quote and the apostrophe.  The
    parentheses of the script group the string concatenation, they are not
    part of the pattern; alternation binds weakest in a regular expression,
    so the first six alternatives are the bare verbs and the colon and the
    quotation mark belong to the seventh only. *)
Definition speech_verbs : list text :=
  [ [0x8bf4]; [0x95ee]; [0x7b54]; [0x5199; 0x9053]; [0x6307; 0x51fa];
    [0x8868; 0x793a]; [0x5f3a; 0x8c03] ]%N.

Definition is_quote (c : char) : bool :=
  ((c =? quoteChar) || (c =? 0x22) || (c =? 0x27))%N.

(** [\s*:\s*Q] at the head of [s]: the number of characters matched.  No
    whitespace character is a colon or a quotation mark, so the greedy
    [\s*] never gives characters back. *)
Definition colon_then_quote (s : text) : option nat :=
  let s1 := TrimStart s in
  match s1 with
  | c :: s2 =>
      if (c =? colonChar)%N then
        let s3 := TrimStart s2 in
        match s3 with
        | q :: s4 => if is_quote q then Some (length s - length s4) else None
        | [] => None
        end
      else None
  | [] => None
  end.

Definition quoteOnlyPattern : matcher :=
  fun s =>
    match alt (removelast speech_verbs) s with
    | Some n => Some n
    | None =>
        let v := last speech_verbs [] in
        if starts_with v s then
          match colon_then_quote (skipn (length v) s) with
          | Some n => Some (length v + n)
          | None => None
          end
        else None
    end.

Section Script.

(** [$Path], the content of the file it names, and the other parameters *)
Variable Path : text.
Variable content : text.
Variable cfg : Config.

Definition lineCount : nat := length (ReadLines content).
Definition charCount : nat := length content.

(** [([regex]::Matches($text, p)).Count] *)
Definition count (alternatives : list text) : nat :=
  MatchesCount (alt alternatives) content.

Definition hits : list MatchInfo := SelectString (alt [er_shi; ni_hui]) content.

(** [$colonHits] *)
Definition colonHits : list MatchInfo :=
  let colonHits := SelectString (alt [[colonChar]]) content in
  if SkipTitleLine cfg && some_hits colonHits
  then filter (fun h => 1 <? fst h) colonHits
  else colonHits.

(** [$colonCount] *)
Definition colonCount : Z :=
  let colonCount := Z.of_nat (count [[colonChar]]) in
  if SkipTitleLine cfg
  then
    let firstLineColons :=
      Z.of_nat (MatchesCount (alt [[colonChar]]) (firstLine content)) in
    (colonCount - firstLineColons)%Z
  else colonCount.

(** [$colonViolations] *)
Definition colonViolations : list MatchInfo :=
  if ColonExceptionsQuoteOnly cfg && some_hits colonHits
  then filter (fun hit => negb (IsMatch quoteOnlyPattern (snd hit))) colonHits
  else [].

Definition exclHits : list MatchInfo := SelectString (alt [[exclChar]]) content.
Definition dashHits : list MatchInfo := SelectString (alt [dashPattern]) content.
Definition dashCount : nat := count [dashPattern].
Definition metaphorCount : nat := count metaphor_markers.
Definition metaphorHits : list MatchInfo :=
  SelectString (alt metaphor_markers) content.
Definition doubleAdjCount : nat := count [double_adj].
Definition doubleAdjHits : list MatchInfo :=
  SelectString (alt [double_adj]) content.

(** *** Final result *)

Definition erShiCount : nat := count [er_shi].
Definition niHuiCount : nat := count [ni_hui].
Definition exclCount : nat := count [[exclChar]].
Definition roadmarkCount : nat := count roadmark_terms.

Definition passBudget : bool := (colonCount <=? ColonBudget cfg)%Z.

Definition passColonUsage : bool :=
  negb (ColonExceptionsQuoteOnly cfg) || (length colonViolations =? 0).

Definition er_shi_issue : text :=
  str "er_shi count " ++ dec (Z.of_nat erShiCount) ++ str " > 1".
Definition ni_hui_issue : text :=
  str "ni_hui count " ++ dec (Z.of_nat niHuiCount) ++ str " > 0".
Definition budget_issue : text :=
  str "colon count " ++ dec colonCount ++ str " exceeds budget "
    ++ dec (ColonBudget cfg).
Definition colon_usage_issue : text := str "non-quote colon usage detected".
Definition short_paragraphs_issue : text :=
  str "short paragraphs (" ++ dec (Z.of_nat (shortParagraphCount content))
    ++ str " >= 4)".
Definition exclamation_issue : text :=
  str "exclamation marks " ++ dec (Z.of_nat exclCount) ++ str " > 2".
Definition dash_issue : text :=
  str "dashes " ++ dec (Z.of_nat dashCount) ++ str " > 3".
Definition roadmark_issue : text :=
  str "roadmark terms " ++ dec (Z.of_nat roadmarkCount) ++ str " > 2".

(** [$issues], grown by [+=] in the order of the script *)
Definition issues : list text :=
  let issues := [] in
  let issues := if 1 <? erShiCount then issues ++ [er_shi_issue] else issues in
  let issues := if 0 <? niHuiCount then issues ++ [ni_hui_issue] else issues in
  let issues := if negb passBudget then issues ++ [budget_issue] else issues in
  let issues :=
    if negb passColonUsage then issues ++ [colon_usage_issue] else issues in
  let issues :=
    if 4 <=? shortParagraphCount content
    then issues ++ [short_paragraphs_issue] else issues in
  let issues :=
    if 2 <? exclCount then issues ++ [exclamation_issue] else issues in
  let issues := if 3 <? dashCount then issues ++ [dash_issue] else issues in
  let issues :=
    if 2 <? roadmarkCount then issues ++ [roadmark_issue] else issues in
  issues.

(** The verdict: [true] for PASS. *)
Definition verdict : bool := length issues =? 0.

(** *** The report, section by section in the order written *)

Definition header_section : list text :=
  [ str "===== Style Lint Report =====";
    str "File: " ++ Path;
    str "Chars: " ++ dec (Z.of_nat charCount);
    str "Lines: " ++ dec (Z.of_nat lineCount);
    [] ].

Definition paragraph_section : list text :=
  [ str "--- Paragraph Analysis ---";
    str "Paragraphs: " ++ dec (Z.of_nat (paragraphCount content));
    str "Avg paragraph length: " ++ dec (Z.of_nat (avgParaLen content))
      ++ str " chars";
    str "Short paragraphs (<100 chars): "
      ++ dec (Z.of_nat (shortParagraphCount content));
    str "H2 headings (##): " ++ dec (Z.of_nat (headingCount content));
    str "Colon budget: " ++ dec (ColonBudget cfg);
    [] ].

Definition pattern_counts_section : list text :=
  str "--- Pattern Counts ---"
  :: map (fun entry =>
            str "  " ++ str (fst entry) ++ str ": "
              ++ dec (Z.of_nat (count (snd entry))))
         patterns.

Definition hit_lines_section : list text :=
  [ []; str "--- Hit Lines (er_shi|ni_hui) ---" ]
  ++ (if some_hits hits then map hit_line hits else [str "  none"]).

Definition colon_lines_section : list text :=
  [ []; str "--- Colon Lines ---" ]
  ++ (if some_hits colonHits then map hit_line colonHits else [str "  none"]).

Definition colon_violations_section : list text :=
  [] :: (if 0 <? length colonViolations
         then str "--- Colon Violations (non-quote usage) ---"
              :: map hit_line colonViolations
         else []).

Definition exclamation_section : list text :=
  [] :: (if some_hits exclHits
         then str "--- Exclamation Mark Lines ---" :: map hit_line exclHits
         else []).

Definition dash_section : list text :=
  [] :: (if 3 <? dashCount
         then (str "--- Dash Warning (>3 occurrences: "
                 ++ dec (Z.of_nat dashCount) ++ str ") ---")
              :: (if some_hits dashHits then map hit_line dashHits else [])
         else []).

Definition metaphor_section : list text :=
  [ []; str "--- Metaphor Markers (rough screen) ---";
    str "  Count: " ++ dec (Z.of_nat metaphorCount) ]
  ++ (if 0 <? metaphorCount then map hit_line metaphorHits else []).

Definition double_adj_section : list text :=
  [] :: (if 0 <? doubleAdjCount
         then (str "--- Double Adjective Warning (A" ++ double_adj
                 ++ str "B) ---")
              :: (str "  Count: " ++ dec (Z.of_nat doubleAdjCount))
              :: map hit_line doubleAdjHits
         else []).

Definition result_section : list text :=
  [ []; str "===== Result =====" ]
  ++ (if length issues =? 0 then [str "  PASS"]
      else str "  FAIL" :: map (fun issue => str "  - " ++ issue) issues).

Definition report : list text :=
  header_section ++ paragraph_section ++ pattern_counts_section
  ++ hit_lines_section ++ colon_lines_section ++ colon_violations_section
  ++ exclamation_section ++ dash_section ++ metaphor_section
  ++ double_adj_section ++ result_section.

End Script.

(** *** The run *)

(** What a path names: a text file, with its decoded content, or something
    that exists and cannot be read as text, such as a directory. *)
Inductive Entry :=
  | TextFile (content : text)
  | Unreadable.

Definition FileSystem := text -> option Entry.

(** [Test-Path -LiteralPath $Path]: something exists at the path. *)
Definition TestPath (fs : FileSystem) (Path : text) : bool :=
  match fs Path with
  | Some _ => true
  | None => false
  end.

(** What [Get-Content] and [Select-String] read at the path.  At an
    unreadable path the cmdlets report an error and yield nothing, the
    script goes on with [$null] for [$text] and [$lines], and [$null]
    behaves as the empty string in all that follows: its [Length] and
    [Count] are 0 and [Regex] receives the empty string. *)
Definition GetContent (fs : FileSystem) (Path : text) : text :=
  match fs Path with
  | Some (TextFile content) => content
  | Some Unreadable | None => []
  end.

Record Outcome := {
  stdout : list text;   (* the lines of [Write-Output] *)
  errors : list text;   (* the messages of the script's [Write-Error] *)
  exit_code : Z
}.

Definition run (fs : FileSystem) (Path : text) (cfg : Config) : Outcome :=
  if negb (TestPath fs Path)
  then {| stdout := [];
          errors := [str "File not found: " ++ Path];
          exit_code := 1 |}
  else {| stdout := report Path (GetContent fs Path) cfg;
          errors := [];
          exit_code := 0 |}.

End StyleLint.
Import StyleLint.

(** ** The specification's wording, for comparison with the script *)

Module Spec.

(** A line break, optionally preceded by a carriage return. *)
Definition line_break (b : text) : Prop := b = [LF] \/ b = [CR; LF].

(** Two or more consecutive line breaks occur in [s]. *)
Definition has_break_run (s : text) : Prop :=
  exists a b1 b2 c,
    line_break b1 /\ line_break b2 /\ s = a ++ b1 ++ b2 ++ c.

Definition whitespace_only (s : text) : Prop :=
  forallb IsWhiteSpace s = true.

(** A paragraph is a chunk between two runs, trimmed, and not empty: it
    begins and ends with a character that is not whitespace, and no run of
    line breaks occurs in it. *)
Definition paragraph (p : text) : Prop :=
  (exists c r, p = c :: r /\ IsWhiteSpace c = false)
  /\ (exists r c, p = r ++ [c] /\ IsWhiteSpace c = false)
  /\ ~ has_break_run p.

(** What lies between two paragraphs: the whitespace trimmed off them, the
    run of line breaks at which the text is split, and any chunks that are
    empty after trimming, with their runs. *)
Definition gap (g : text) : Prop := whitespace_only g /\ has_break_run g.

(** The text after a paragraph: whitespace to the end, or a gap, the next
    paragraph and what comes after it. *)
Inductive remainder : list text -> text -> Prop :=
  | remainder_end (w : text) : whitespace_only w -> remainder [] w
  | remainder_next (g p : text) (ps : list text) (t : text) :
      gap g -> paragraph p -> remainder ps t ->
      remainder (p :: ps) (g ++ p ++ t).

(** [segmentation content ps]: the document text is made of the paragraphs
    [ps], in this order, with whitespace before the first one, a gap between
    two of them, and whitespace after the last one. *)
Inductive segmentation : text -> list text -> Prop :=
  | segmentation_none (w : text) : whitespace_only w -> segmentation w []
  | segmentation_first (w p : text) (ps : list text) (t : text) :
      whitespace_only w -> paragraph p -> remainder ps t ->
      segmentation (w ++ p ++ t) (p :: ps).

(** The number of paragraphs strictly shorter than 100 characters. *)
Definition short_paragraph_count (ps : list text) : nat :=
  length (filter (fun p => length p <? 100) ps).

(** The exempt shape: a speech-introducing verb, optional whitespace, the
    full-width colon, optional whitespace, an opening quotation mark. *)
Fixpoint quote_shape_of (verbs : list text) (s : text) : option nat :=
  match verbs with
  | [] => None
  | v :: vs =>
      if starts_with v s then
        match colon_then_quote (skipn (length v) s) with
        | Some n => Some (length v + n)
        | None => quote_shape_of vs s
        end
      else quote_shape_of vs s
  end.

Definition quote_shape : matcher := quote_shape_of speech_verbs.

End Spec.

(** ** Sample documents *)

Module Samples.

Definition shuo : char := 0x8bf4%N.
Definition hao : char := 0x597d%N.

(** A line of quoted speech: verb, colon, opening quote, a word, closing quote *)
Definition speech_line : text := [shuo; colonChar; quoteChar; hao; 0x201d%N].

(** Three lines of quoted speech *)
Definition three_speech_lines : text :=
  speech_line ++ [LF] ++ speech_line ++ [LF] ++ speech_line ++ [LF].

(** A colon after a verb, no quotation mark *)
Definition verb_colon_line : text := [shuo; colonChar; hao].

Definition no_exceptions_config : Config :=
  {| ColonBudget := 2; ColonExceptionsQuoteOnly := false; SkipTitleLine := false |}.

(** A file [a.txt] holding the three lines of quoted speech, and a
    directory [docs] *)
Definition sample_files : FileSystem :=
  fun p => if list_eq_dec N.eq_dec p (str "a.txt")
           then Some (TextFile three_speech_lines)
           else if list_eq_dec N.eq_dec p (str "docs")
           then Some Unreadable
           else None.

(** A heading line that holds every pattern the verdict does not look at *)
Definition busy_doc : text :=
  str "## " ++ bu_shi ++ ni ++ semicolon ++ period
    ++ hd [] ai_roadmarks_extra ++ hd [] metaphor_markers ++ double_adj.

Definition plain_doc : text := str "a".

(** One double dash *)
Definition one_dash : text := dashPattern.

(** A colon between two words, no verb and no quotation mark *)
Definition plain_colon_line : text := [hao; colonChar; hao].

Definition three_plain_colon_lines : text :=
  plain_colon_line ++ [LF] ++ plain_colon_line ++ [LF] ++ plain_colon_line.

(** Five paragraphs of one character *)
Definition five_paragraphs : text :=
  Join [LF; LF] [str "a"; str "b"; str "c"; str "d"; str "e"].

(** Four lines with a double dash each *)
Definition four_dash_lines : text :=
  Join [LF] [dashPattern; dashPattern; dashPattern; dashPattern].

Definition skip_title_config : Config :=
  {| ColonBudget := 2; ColonExceptionsQuoteOnly := true; SkipTitleLine := true |}.

End Samples.
Import Samples.

(** ** Vocabulary of the statements *)

Module Vocabulary.

(** The first three characters tell the eight failure reasons apart. *)
Definition issue_tag (m : text) : text := firstn 3 m.

(** The occurrences of a character in a list of lines. *)
Definition occurrences (c : char) (ls : list text) : nat :=
  list_sum (map (fun l => count_occ N.eq_dec l c) ls).

(** A line of the report that opens a section. *)
Definition is_heading (l : text) : bool := starts_with (str "--- ") l.

(** The section headings of a report, in the order written. *)
Definition headings (out : list text) : list text := filter is_heading out.

(** Two texts differ at a position that both have. *)
Fixpoint clash (p q : text) : bool :=
  match p, q with
  | a :: p', b :: q' => negb (a =? b)%N || clash p' q'
  | _, _ => false
  end.

(** Whitespace only. *)
Definition blank (s : text) : bool := forallb IsWhiteSpace s.

(** The first character exists and is not whitespace. *)
Definition solid_head (s : text) : bool :=
  match s with
  | c :: _ => negb (IsWhiteSpace c)
  | [] => false
  end.

(** The pattern of the paragraph break matches at the head of [s]. *)
Definition breaks_here (s : text) : bool := 2 <=? length (line_breaks s).

(** The paragraph break without its capture group. *)
Definition break_run (s : text) : option (nat * list text) :=
  let bs := line_breaks s in
  if 2 <=? length bs then Some (length (concat bs), []) else None.

(** No paragraph break starts inside [p] when [s] follows it. *)
Fixpoint quiet (p s : text) : Prop :=
  match p with
  | [] => True
  | _ :: p' => breaks_here (p ++ s) = false /\ quiet p' s
  end.

(** [x] in front of the first piece of a split. *)
Definition prepend (x : text) (pieces : list text) : list text :=
  match pieces with
  | h :: t => (x ++ h) :: t
  | [] => [x]
  end.

(** Trim every piece and drop the empty ones. *)
Definition trimmed (pieces : list text) : list text :=
  filter (fun p => 0 <? length p) (map Trim pieces).

(** A trimmed paragraph begins and ends with a solid character and holds
    no paragraph break. *)
Definition whole (q : text) : Prop :=
  solid_head q = true /\ solid_head (rev q) = true /\ quiet q [].

(** A line terminator of [ReadLine]. *)
Definition terminator (c : char) : bool := (c =? LF)%N || (c =? CR)%N.

(** A text without line terminators. *)
Definition single_line (l : text) : bool :=
  forallb (fun c => negb (terminator c)) l.

(** A literal of a pattern that is not empty and holds no line terminator;
    a pattern all of whose alternatives are such. *)
Definition plain_literal (p : text) : bool :=
  match p with [] => false | _ :: _ => forallb (fun c => negb (terminator c)) p end.
Definition plain (ps : list text) : bool := forallb plain_literal ps.

(** A listing of hit lines beside a match count: no more rows than matches,
    and no row exactly when there is no match. *)
Definition listing_agrees (hs : list MatchInfo) (n : nat) : Prop :=
  length hs <= n /\ (hs = [] <-> n = 0).

End Vocabulary.
Import Vocabulary.

(** ** Facts about text and scanning *)

Section TextFacts.

Lemma firstn_str_app (n : nat) (p x : text) :
  n <= length p -> firstn n (p ++ x) = firstn n p.
Proof.
  intros Hn. rewrite firstn_app.
  replace (n - length p) with 0 by lia.
  simpl. apply app_nil_r.
Qed.

Lemma Matches_from_cons (m : matcher) (c : char) (r : text) :
  Matches_from m 0 (c :: r) =
    match m (c :: r) with
    | Some n => S (Matches_from m (pred n) r)
    | None => Matches_from m 0 r
    end.
Proof. reflexivity. Qed.

Lemma alt_char (c a : char) (r : text) :
  alt [[c]] (a :: r) = if (c =? a)%N then Some 1 else None.
Proof. simpl. rewrite andb_true_r. reflexivity. Qed.

(** A pattern of one literal character counts the occurrences of it. *)
Lemma MatchesCount_char (c : char) (s : text) :
  MatchesCount (alt [[c]]) s = count_occ N.eq_dec s c.
Proof.
  unfold MatchesCount.
  induction s as [|a r IH]; [reflexivity|].
  rewrite Matches_from_cons, alt_char. simpl count_occ.
  destruct (N.eqb_spec c a) as [E|Hne].
  - destruct (N.eq_dec a c) as [_|Hn]; [|congruence].
    change (Nat.pred 1) with 0. now rewrite IH.
  - destruct (N.eq_dec a c) as [E|_]; [congruence | exact IH].
Qed.

End TextFacts.

(** ** The failure reasons *)

Section Issues.

Variable content : text.
Variable cfg : Config.

Let reason (b : bool) (m : text) : list text := if b then [m] else [].

Lemma issues_unfold :
  issues content cfg =
    reason (1 <? erShiCount content) (er_shi_issue content)
    ++ reason (0 <? niHuiCount content) (ni_hui_issue content)
    ++ reason (negb (passBudget content cfg)) (budget_issue content cfg)
    ++ reason (negb (passColonUsage content cfg)) colon_usage_issue
    ++ reason (4 <=? shortParagraphCount content) (short_paragraphs_issue content)
    ++ reason (2 <? exclCount content) (exclamation_issue content)
    ++ reason (3 <? dashCount content) (dash_issue content)
    ++ reason (2 <? roadmarkCount content) (roadmark_issue content).
Proof.
  unfold issues, reason.
  destruct (1 <? erShiCount content), (0 <? niHuiCount content),
    (negb (passBudget content cfg)), (negb (passColonUsage content cfg)),
    (4 <=? shortParagraphCount content), (2 <? exclCount content),
    (3 <? dashCount content), (2 <? roadmarkCount content); reflexivity.
Qed.

Lemma In_reason (b : bool) (m x : text) :
  In x (reason b m) <-> b = true /\ x = m.
Proof.
  unfold reason. destruct b; simpl; intuition congruence.
Qed.

Lemma In_issues (x : text) :
  In x (issues content cfg) <->
    (1 < erShiCount content /\ x = er_shi_issue content)
    \/ (0 < niHuiCount content /\ x = ni_hui_issue content)
    \/ ((ColonBudget cfg < colonCount content cfg)%Z
        /\ x = budget_issue content cfg)
    \/ ((ColonExceptionsQuoteOnly cfg = true
         /\ colonViolations content cfg <> [])
        /\ x = colon_usage_issue)
    \/ (4 <= shortParagraphCount content
        /\ x = short_paragraphs_issue content)
    \/ (2 < exclCount content /\ x = exclamation_issue content)
    \/ (3 < dashCount content /\ x = dash_issue content)
    \/ (2 < roadmarkCount content /\ x = roadmark_issue content).
Proof.
  rewrite issues_unfold, !in_app_iff, !In_reason.
  rewrite !Nat.ltb_lt, Nat.leb_le, !negb_true_iff.
  unfold passBudget, passColonUsage.
  rewrite Z.leb_gt, orb_false_iff, negb_false_iff, Nat.eqb_neq.
  rewrite length_zero_iff_nil.
  reflexivity.
Qed.

End Issues.

Lemma issue_tags (content : text) (cfg : Config) :
  issue_tag (er_shi_issue content) = str "er_"
  /\ issue_tag (ni_hui_issue content) = str "ni_"
  /\ issue_tag (budget_issue content cfg) = str "col"
  /\ issue_tag colon_usage_issue = str "non"
  /\ issue_tag (short_paragraphs_issue content) = str "sho"
  /\ issue_tag (exclamation_issue content) = str "exc"
  /\ issue_tag (dash_issue content) = str "das"
  /\ issue_tag (roadmark_issue content) = str "roa".
Proof.
  unfold issue_tag, er_shi_issue, ni_hui_issue, budget_issue,
    short_paragraphs_issue, exclamation_issue, dash_issue, roadmark_issue.
  repeat split;
    try (rewrite firstn_str_app by (vm_compute; lia)); reflexivity.
Qed.

(** Two reasons with different tags are different texts. *)
Ltac tag_clash :=
  match goal with
  | H : ?a = ?b |- _ =>
      apply (f_equal issue_tag) in H;
      match goal with
      | T : issue_tag _ = _ /\ _ |- _ =>
          decompose [and] T; clear T;
          repeat match goal with
                 | E : issue_tag _ = _ |- _ => rewrite E in H; clear E
                 end;
          discriminate H
      end
  end.

Ltac tag_clash_in content cfg :=
  exfalso; pose proof (issue_tags content cfg); tag_clash.

Ltac issue_cases H :=
  apply In_issues in H;
  destruct H as [[? ?]|[[? ?]|[[? ?]|[[? ?]|[[? ?]|[[? ?]|[[? ?]|[? ?]]]]]]]].

(** ** The verdict *)

(** C3.  Apart from the two colon checks, a failure reason is reported
    exactly under these conditions, each against a constant that no
    parameter changes: more than 1 [er_shi], more than 0 [ni_hui], at least
    4 short paragraphs, more than 2 exclamation marks, more than 3 double
    dashes, more than 2 roadmark terms; and the reasons of the verdict are
    these six and the two colon reasons, nothing else. *)
Theorem non_colon_failure_conditions (content : text) (cfg : Config) :
  (In (er_shi_issue content) (issues content cfg)
     <-> 1 < erShiCount content)
  /\ (In (ni_hui_issue content) (issues content cfg)
     <-> 0 < niHuiCount content)
  /\ (In (short_paragraphs_issue content) (issues content cfg)
     <-> 4 <= shortParagraphCount content)
  /\ (In (exclamation_issue content) (issues content cfg)
     <-> 2 < exclCount content)
  /\ (In (dash_issue content) (issues content cfg)
     <-> 3 < dashCount content)
  /\ (In (roadmark_issue content) (issues content cfg)
     <-> 2 < roadmarkCount content)
  /\ incl (issues content cfg)
       [ er_shi_issue content; ni_hui_issue content;
         budget_issue content cfg; colon_usage_issue;
         short_paragraphs_issue content; exclamation_issue content;
         dash_issue content; roadmark_issue content ]
  /\ (verdict content cfg = true <-> issues content cfg = []).
Proof.
  repeat match goal with |- _ /\ _ => split end;
    try (split;
         [ intros H; issue_cases H; try assumption;
           tag_clash_in content cfg
         | intros H; apply In_issues; tauto ]).
  - intros m H. issue_cases H; subst m; simpl; tauto.
  - unfold verdict. rewrite Nat.eqb_eq. apply length_zero_iff_nil.
Qed.

(** C1, as the script has it.  The budget reason is reported exactly when
    the colon count of the script exceeds [ColonBudget], and that count
    takes every full-width colon of the text, exempt or not: all of them
    without [SkipTitleLine], and all but those of line 1 with
    [SkipTitleLine], in a document of two lines or more.  The reason for
    non-quote usage is reported exactly when [ColonExceptionsQuoteOnly] is
    set and some colon line is a violation. *)
Theorem colon_rule_failures (content : text) (cfg : Config) :
  (In (budget_issue content cfg) (issues content cfg)
     <-> (ColonBudget cfg < colonCount content cfg)%Z)
  /\ (In colon_usage_issue (issues content cfg)
     <-> ColonExceptionsQuoteOnly cfg = true
         /\ colonViolations content cfg <> [])
  /\ (if SkipTitleLine cfg
      then match ReadLines content with
           | title :: _ :: _ =>
               colonCount content cfg
               = (Z.of_nat (count_occ N.eq_dec content colonChar)
                  - Z.of_nat (count_occ N.eq_dec title colonChar))%Z
           | _ => True
           end
      else colonCount content cfg
           = Z.of_nat (count_occ N.eq_dec content colonChar)).
Proof.
  repeat match goal with |- _ /\ _ => split end;
    try (split;
         [ intros H; issue_cases H; try assumption;
           tag_clash_in content cfg
         | intros H; apply In_issues; tauto ]).
  unfold colonCount, count, firstLine. rewrite !MatchesCount_char.
  destruct (SkipTitleLine cfg); [|reflexivity].
  destruct (ReadLines content) as [|title [|l ls]]; try exact I.
  reflexivity.
Qed.

(** C1, as the specification has it, fails on its own scenario: three
    colons, each on a line of quoted speech, with the default budget of 2.
    There is no violation, yet the budget reason is reported. *)
Lemma exempt_colons_still_exceed_budget :
  count_occ N.eq_dec three_speech_lines colonChar = 3
  /\ forallb (IsMatch Spec.quote_shape) (ReadLines three_speech_lines) = true
  /\ colonViolations three_speech_lines default_config = []
  /\ issues three_speech_lines default_config
     = [str "colon count 3 exceeds budget 2"]
  /\ verdict three_speech_lines default_config = false
  /\ ~ (In (budget_issue three_speech_lines default_config)
           (issues three_speech_lines default_config)
        <-> (ColonBudget default_config
             < Z.of_nat (length (colonViolations three_speech_lines
                                   default_config)))%Z).
Proof.
  repeat match goal with |- _ /\ _ => split end;
    try (vm_compute; reflexivity).
  intros [H _].
  assert (E : (2 < 0)%Z); [|discriminate E].
  apply H. vm_compute. left. reflexivity.
Qed.

(** C10.  The verdict and its reasons are determined by the eight rule
    counts and the two colon settings: documents and configurations that
    agree on them get the same reasons, the same verdict and the same
    result block, whatever their other counts are. *)
Theorem verdict_determined_by_rule_counts
    (d1 d2 : text) (c1 c2 : Config) :
  erShiCount d1 = erShiCount d2 ->
  niHuiCount d1 = niHuiCount d2 ->
  colonCount d1 c1 = colonCount d2 c2 ->
  length (colonViolations d1 c1) = length (colonViolations d2 c2) ->
  shortParagraphCount d1 = shortParagraphCount d2 ->
  exclCount d1 = exclCount d2 ->
  dashCount d1 = dashCount d2 ->
  roadmarkCount d1 = roadmarkCount d2 ->
  ColonBudget c1 = ColonBudget c2 ->
  ColonExceptionsQuoteOnly c1 = ColonExceptionsQuoteOnly c2 ->
  issues d1 c1 = issues d2 c2
  /\ verdict d1 c1 = verdict d2 c2
  /\ result_section d1 c1 = result_section d2 c2.
Proof.
  intros Her Hni Hcc Hcv Hsp Hex Hda Hro Hbu Hqo.
  assert (E : issues d1 c1 = issues d2 c2).
  { unfold issues, passBudget, passColonUsage, er_shi_issue, ni_hui_issue,
      budget_issue, short_paragraphs_issue, exclamation_issue, dash_issue,
      roadmark_issue.
    rewrite Her, Hni, Hcc, Hcv, Hsp, Hex, Hda, Hro, Hbu, Hqo.
    reflexivity. }
  unfold verdict, result_section. rewrite E. auto.
Qed.

(** The counts outside of the verdict differ between the two sample
    documents. *)
Example busy_doc_counts :
  map (fun alts => count busy_doc alts)
      [[bu_shi]; [ni]; [semicolon]; [period]; ai_roadmarks_extra;
       metaphor_markers; [double_adj]]
  = [1; 1; 1; 1; 1; 1; 1]
  /\ headingCount busy_doc = 1
  /\ map (fun alts => count plain_doc alts)
       [[bu_shi]; [ni]; [semicolon]; [period]; ai_roadmarks_extra;
        metaphor_markers; [double_adj]]
     = [0; 0; 0; 0; 0; 0; 0]
  /\ headingCount plain_doc = 0.
Proof. repeat split. Qed.

(** C10 at the two sample documents. *)
Lemma verdict_determined_by_rule_counts_witness :
  issues plain_doc default_config = issues busy_doc default_config
  /\ verdict plain_doc default_config = verdict busy_doc default_config
  /\ result_section plain_doc default_config
     = result_section busy_doc default_config.
Proof.
  apply (verdict_determined_by_rule_counts
           plain_doc busy_doc default_config default_config);
    vm_compute; reflexivity.
Defined.

(** ** The operations on samples *)

Example ReadLines_samples :
  ReadLines (str "a" ++ [CR; LF] ++ str "b" ++ [CR] ++ str "c" ++ [LF])
  = [str "a"; str "b"; str "c"]
  /\ ReadLines (str "a" ++ [LF; LF]) = [str "a"; []]
  /\ ReadLines [] = [].
Proof. repeat split. Qed.

Example Matches_samples :
  MatchesCount (alt [dashPattern]) (dashPattern ++ [0x2014]%N) = 1
  /\ MatchesCount (alt [dashPattern]) (dashPattern ++ dashPattern) = 2
  /\ MatchesCount (alt roadmark_terms) (str "x" ++ hd [] roadmark_terms) = 1.
Proof. repeat split. Qed.

(** The split keeps the last line break of each run as a piece of its own;
    the filter of [$paragraphs] drops it, and drops the blank chunk. *)
Example paragraphs_sample :
  Split paragraph_break (str "a " ++ [CR; LF; LF] ++ str " " ++ [LF; LF] ++ str "b")
  = [str "a "; [LF]; str " "; [LF]; str "b"]
  /\ paragraphs
       (str " a " ++ [CR; LF; LF] ++ str " " ++ [LF; LF] ++ str "b" ++ [LF])
     = [str "a "; str "b"]
  /\ paragraphs (str "a" ++ [LF] ++ str "b") = [str "a" ++ [LF] ++ str "b"].
Proof. repeat split. Qed.

Example heading_samples :
  headingCount (str "## a" ++ [LF] ++ str "x ## b" ++ [LF] ++ str "##" ++ [LF]) = 2.
Proof. reflexivity. Qed.

(** ** The scenarios of the specification *)

Example scenario_colons_without_quotes :
  issues three_plain_colon_lines default_config
  = [str "colon count 3 exceeds budget 2"; str "non-quote colon usage detected"].
Proof. vm_compute. reflexivity. Qed.

Example scenario_short_paragraphs :
  shortParagraphCount five_paragraphs = 5
  /\ issues five_paragraphs default_config = [str "short paragraphs (5 >= 4)"].
Proof. split; vm_compute; reflexivity. Qed.

Example scenario_dashes :
  issues four_dash_lines default_config = [str "dashes 4 > 3"]
  /\ dash_section four_dash_lines
     = [ []; str "--- Dash Warning (>3 occurrences: 4) ---";
         str "  L1: " ++ dashPattern; str "  L2: " ++ dashPattern;
         str "  L3: " ++ dashPattern; str "  L4: " ++ dashPattern ].
Proof. split; vm_compute; reflexivity. Qed.

Example scenario_empty_document :
  verdict [] default_config = true
  /\ paragraphCount [] = 0 /\ avgParaLen [] = 0.
Proof. repeat split. Qed.

Example round_to_even : MathRound 5 2 = 2 /\ MathRound 7 2 = 4 /\ MathRound 7 3 = 2.
Proof. repeat split. Qed.

Example dec_samples : dec 0 = str "0" /\ dec 100 = str "100" /\ dec (-3) = str "-3".
Proof. repeat split. Qed.

(** [$lines[0]] is the title line only when the file has a second line. *)
Example title_of_one_line :
  colonCount plain_colon_line skip_title_config = 1%Z
  /\ colonCount (plain_colon_line ++ [LF] ++ [hao]) skip_title_config = 0%Z.
Proof. split; reflexivity. Qed.

(** ** Lines and hits *)

(** A character other than the line terminators occurs in the lines of a
    text as often as in the text itself. *)
Section Lines.
Variable c : char.
Hypothesis c_not_LF : c <> LF.
Hypothesis c_not_CR : c <> CR.

Lemma occurrences_cons (l : text) (ls : list text) :
  occurrences c (l :: ls) = count_occ N.eq_dec l c + occurrences c ls.
Proof. reflexivity. Qed.

Lemma ReadLines_from_occurrences (n : nat) :
  forall (s cur : text), length s <= n ->
    occurrences c (ReadLines_from cur s)
    = count_occ N.eq_dec cur c + count_occ N.eq_dec s c.
Proof.
  assert (last_line : forall cur : text,
    occurrences c (match cur with [] => [] | _ :: _ => [rev cur] end)
    = count_occ N.eq_dec cur c + 0).
  { intros [|a cur]; [reflexivity|].
    rewrite occurrences_cons, count_occ_rev. reflexivity. }
  assert (Hlf : count_occ N.eq_dec [LF] c = 0).
  { unfold count_occ. destruct (N.eq_dec LF c); [congruence|reflexivity]. }
  assert (Hcr : count_occ N.eq_dec [CR] c = 0).
  { unfold count_occ. destruct (N.eq_dec CR c); [congruence|reflexivity]. }
  induction n as [|n IH]; intros s cur Hn.
  - destruct s; [apply last_line | simpl in Hn; lia].
  - destruct s as [|a r]; [apply last_line|].
    simpl in Hn. cbn [ReadLines_from].
    change (a :: r) with ([a] ++ r). rewrite count_occ_app.
    destruct (N.eqb_spec a LF) as [->|HnLF].
    { rewrite occurrences_cons, IH, count_occ_rev by lia.
      rewrite Hlf. reflexivity. }
    destruct (N.eqb_spec a CR) as [->|HnCR].
    { rewrite Hcr. destruct r as [|d r'].
      - rewrite occurrences_cons, count_occ_rev. reflexivity.
      - destruct (N.eqb_spec d LF) as [->|HdLF];
          rewrite occurrences_cons, IH, count_occ_rev by (simpl in *; lia).
        + change (LF :: r') with ([LF] ++ r').
          rewrite count_occ_app, Hlf. reflexivity.
        + reflexivity. }
    rewrite IH by lia. change (a :: cur) with ([a] ++ cur).
    rewrite count_occ_app. lia.
Qed.

Lemma ReadLines_occurrences (s : text) :
  occurrences c (ReadLines s) = count_occ N.eq_dec s c.
Proof. apply ReadLines_from_occurrences with (n := length s). lia. Qed.

Local Abbreviation P := (fun h : MatchInfo => IsMatch (alt [[c]]) (snd h)).

Lemma IsMatch_char (l : text) :
  IsMatch (alt [[c]]) l = (0 <? count_occ N.eq_dec l c).
Proof.
  induction l as [|a r IH]; [reflexivity|].
  cbn [IsMatch count_occ]. rewrite alt_char.
  destruct (N.eqb_spec c a) as [E|Hne].
  - destruct (N.eq_dec a c); [reflexivity | congruence].
  - destruct (N.eq_dec a c); [congruence | exact IH].
Qed.

Lemma numbered_cons (k : nat) (l : text) (ls : list text) :
  combine (seq k (length (l :: ls))) (l :: ls)
  = (k, l) :: combine (seq (S k) (length ls)) ls.
Proof. reflexivity. Qed.

(** Each selected line holds the character at least once. *)
Lemma selected_le_occurrences (ls : list text) :
  forall k, length (filter P (combine (seq k (length ls)) ls)) <= occurrences c ls.
Proof.
  induction ls as [|l ls IH]; intros k; [apply Nat.le_refl|].
  rewrite numbered_cons, occurrences_cons. cbn [filter].
  cbn [snd]. rewrite IsMatch_char.
  specialize (IH (S k)).
  destruct (Nat.ltb_spec 0 (count_occ N.eq_dec l c)); cbn [length]; lia.
Qed.

Lemma some_selected (ls : list text) :
  forall k, some_hits (filter P (combine (seq k (length ls)) ls))
            = (0 <? occurrences c ls).
Proof.
  induction ls as [|l ls IH]; intros k; [reflexivity|].
  rewrite numbered_cons, occurrences_cons. cbn [filter].
  cbn [snd]. rewrite IsMatch_char.
  destruct (Nat.ltb_spec 0 (count_occ N.eq_dec l c)) as [Hpos|Hz].
  - cbn [some_hits]. symmetry. apply Nat.ltb_lt. lia.
  - rewrite IH. replace (count_occ N.eq_dec l c) with 0 by lia. reflexivity.
Qed.

Lemma after_title (Q : MatchInfo -> bool) (ls : list text) :
  forall k, 2 <= k ->
    filter (fun h => 1 <? fst h) (filter Q (combine (seq k (length ls)) ls))
    = filter Q (combine (seq k (length ls)) ls).
Proof.
  induction ls as [|l ls IH]; intros k Hk; [reflexivity|].
  rewrite numbered_cons. cbn [filter].
  destruct (Q (k, l)); [cbn [filter fst]|]; rewrite IH by lia; [|reflexivity].
  destruct (Nat.ltb_spec 1 k); [reflexivity | lia].
Qed.

Lemma SelectString_some (s : text) :
  some_hits (SelectString (alt [[c]]) s) = (0 <? count_occ N.eq_dec s c).
Proof.
  unfold SelectString.
  rewrite some_selected, ReadLines_occurrences. reflexivity.
Qed.

(** The hits below the first line, against the occurrences outside of
    [$lines[0]]. *)
Lemma SelectString_below_title (s : text) :
  length (filter (fun h => 1 <? fst h) (SelectString (alt [[c]]) s))
    + count_occ N.eq_dec (firstLine s) c
  <= count_occ N.eq_dec s c.
Proof.
  rewrite <- (ReadLines_occurrences s).
  unfold SelectString, firstLine.
  destruct (ReadLines s) as [|l1 [|l2 ls]].
  - apply Nat.le_refl.
  - cbn [length seq combine filter snd]. rewrite occurrences_cons.
    change (occurrences c []) with 0.
    assert (count_occ N.eq_dec (firstn 1 l1) c <= count_occ N.eq_dec l1 c).
    { rewrite <- (firstn_skipn 1 l1) at 2. rewrite count_occ_app. lia. }
    destruct (IsMatch (alt [[c]]) l1); cbn [filter fst Nat.ltb Nat.leb length]; lia.
  - rewrite numbered_cons. cbn [filter snd].
    rewrite (occurrences_cons l1).
    pose proof (selected_le_occurrences (l2 :: ls) 2) as Hle.
    destruct (IsMatch (alt [[c]]) l1);
      [cbn [filter fst]; change (1 <? 1) with false; cbv iota|];
      rewrite after_title by lia; lia.
Qed.

Lemma SelectString_le (s : text) :
  length (SelectString (alt [[c]]) s) <= count_occ N.eq_dec s c.
Proof.
  rewrite <- (ReadLines_occurrences s). apply selected_le_occurrences.
Qed.

End Lines.

(** ** Colon hits, violations and the raw count *)

Lemma colonChar_not_terminator : colonChar <> LF /\ colonChar <> CR.
Proof. split; discriminate. Qed.

Lemma colonHits_le_colonCount (content : text) (cfg : Config) :
  (Z.of_nat (length (colonHits content cfg)) <= colonCount content cfg)%Z.
Proof.
  destruct colonChar_not_terminator as [Hlf Hcr].
  unfold colonHits, colonCount, count. rewrite !MatchesCount_char.
  destruct (SkipTitleLine cfg); cbn [andb].
  - pose proof (SelectString_below_title Hlf Hcr content) as Hle.
    destruct (SelectString (alt [[colonChar]]) content) as [|h hs];
      cbn [some_hits]; [cbn [filter length] in *; lia | lia].
  - pose proof (SelectString_le Hlf Hcr content). lia.
Qed.

(** C2, as the script has it.  The violations are colon lines, so their
    number is at most the number of colon lines, which is at most the raw
    colon count; and without [ColonExceptionsQuoteOnly] no violation is
    collected at all. *)
Theorem colon_violations_le_raw_count (content : text) (cfg : Config) :
  (Z.of_nat (length (colonViolations content cfg)) <= colonCount content cfg)%Z
  /\ length (colonViolations content cfg) <= length (colonHits content cfg)
  /\ (Z.of_nat (length (colonHits content cfg)) <= colonCount content cfg)%Z
  /\ (ColonExceptionsQuoteOnly cfg = true \/ colonViolations content cfg = []).
Proof.
  assert (Hle : length (colonViolations content cfg)
                <= length (colonHits content cfg)).
  { unfold colonViolations.
    destruct (ColonExceptionsQuoteOnly cfg && some_hits (colonHits content cfg));
      [apply filter_length_le | apply Nat.le_0_l]. }
  pose proof (colonHits_le_colonCount content cfg) as Hhits.
  repeat split; [lia | exact Hle | exact Hhits |].
  unfold colonViolations.
  destruct (ColonExceptionsQuoteOnly cfg); [left | right]; reflexivity.
Qed.

(** C2, as the specification has it, fails in both directions of its
    equivalence: without the exceptions a colon is counted and no violation
    is, and with them a document without colons has both counts at zero. *)
Lemma violation_count_equality_fails :
  (colonCount [colonChar] no_exceptions_config = 1%Z
   /\ length (colonViolations [colonChar] no_exceptions_config) = 0
   /\ ~ (Z.of_nat (length (colonViolations [colonChar] no_exceptions_config))
         = colonCount [colonChar] no_exceptions_config
         <-> ColonExceptionsQuoteOnly no_exceptions_config = false))
  /\ (colonCount [hao] default_config = 0%Z
      /\ length (colonViolations [hao] default_config) = 0
      /\ ~ (Z.of_nat (length (colonViolations [hao] default_config))
            = colonCount [hao] default_config
            <-> ColonExceptionsQuoteOnly default_config = false)).
Proof.
  repeat match goal with |- _ /\ _ => split end;
    try (vm_compute; reflexivity).
  - intros [_ H]. specialize (H eq_refl). discriminate H.
  - intros [H _]. specialize (H eq_refl). discriminate H.
Qed.

Lemma starts_with_refl_app (v b : text) : starts_with v (v ++ b) = true.
Proof.
  induction v as [|c v IH]; [reflexivity|].
  cbn [app starts_with]. rewrite N.eqb_refl. exact IH.
Qed.

Lemma alt_finds (ps : list text) (v s : text) :
  In v ps -> starts_with v s = true -> alt ps s <> None.
Proof.
  induction ps as [|p ps IH]; intros Hin Hv; [contradiction|].
  cbn [alt]. destruct (starts_with p s) eqn:Hp; [discriminate|].
  destruct Hin as [->|Hin]; [congruence | exact (IH Hin Hv)].
Qed.

(** One of the first six verbs anywhere in a line makes the line match
    [$quoteOnlyPattern], whatever else the line holds. *)
Lemma bare_verb_matches (v a b : text) :
  In v (removelast speech_verbs) ->
  IsMatch quoteOnlyPattern (a ++ v ++ b) = true.
Proof.
  intros Hin. induction a as [|c a IH].
  - cbn [app].
    pose proof (@alt_finds _ v (v ++ b) Hin (starts_with_refl_app v b)) as H.
    destruct (v ++ b) as [|c r] eqn:E; cbn [IsMatch]; unfold quoteOnlyPattern;
      destruct (alt (removelast speech_verbs) _); congruence.
  - cbn [app IsMatch]. rewrite IH.
    destruct (quoteOnlyPattern (c :: a ++ v ++ b)); reflexivity.
Qed.

(** C4.  The script exempts a colon line as soon as one of the first six
    verbs occurs anywhere in it: the line "verb, colon, word" carries no
    quotation mark and does not have the exempt shape, yet it is a colon hit
    and no violation, and the verdict is PASS. *)
Theorem verb_alone_exempts_colon_line :
  IsMatch Spec.quote_shape verb_colon_line = false
  /\ IsMatch quoteOnlyPattern verb_colon_line = true
  /\ colonHits verb_colon_line default_config = [(1, verb_colon_line)]
  /\ colonViolations verb_colon_line default_config = []
  /\ verdict verb_colon_line default_config = true.
Proof. repeat split; vm_compute; reflexivity. Qed.

(** ** The run *)

(** A path at which nothing exists ends the run with the error
    [File not found] and exit code 1, and nothing is written: no report, no
    verdict.  A path that names a text file gives the whole report, from its
    title line to the result block, and exit code 0 whether the verdict is
    PASS or FAIL: the verdict is a line of the report. *)
Lemma run_aborts_or_reports (fs : FileSystem) (Path : text) (cfg : Config) :
  match fs Path with
  | None =>
      stdout (run fs Path cfg) = []
      /\ errors (run fs Path cfg) = [str "File not found: " ++ Path]
      /\ exit_code (run fs Path cfg) = 1%Z
  | Some (TextFile content) =>
      exit_code (run fs Path cfg) = 0%Z
      /\ errors (run fs Path cfg) = []
      /\ stdout (run fs Path cfg) = report Path content cfg
      /\ (exists body,
            stdout (run fs Path cfg)
            = str "===== Style Lint Report =====" :: body
              ++ [str "===== Result ====="]
              ++ (if verdict content cfg then [str "  PASS"]
                  else str "  FAIL"
                       :: map (fun issue => str "  - " ++ issue)
                            (issues content cfg)))
  | Some Unreadable => True
  end.
Proof.
  unfold run, TestPath, GetContent.
  destruct (fs Path) as [[content|]|]; cbn [negb stdout errors exit_code].
  - repeat split.
    exists (tl (header_section Path content)
            ++ paragraph_section content cfg
            ++ pattern_counts_section content
            ++ hit_lines_section content
            ++ colon_lines_section content cfg
            ++ colon_violations_section content cfg
            ++ exclamation_section content
            ++ dash_section content
            ++ metaphor_section content
            ++ double_adj_section content
            ++ [[]]).
    unfold report, header_section, result_section, verdict.
    cbn [tl]. rewrite <- !app_assoc. reflexivity.
  - exact I.
  - repeat split.
Qed.

Example run_samples :
  exit_code (run sample_files (str "a.txt") default_config) = 0%Z
  /\ In (str "  FAIL") (stdout (run sample_files (str "a.txt") default_config))
  /\ run sample_files (str "b.txt") default_config
     = {| stdout := []; errors := [str "File not found: b.txt"];
          exit_code := 1 |}.
Proof. repeat split. vm_compute. tauto. Qed.

(** C9.  The guard of the script tests that the path exists, not that it
    can be read: at the path of a directory the run does not stop with
    [File not found]; it writes the report of an empty document, with the
    verdict PASS, and ends with exit code 0. *)
Theorem unreadable_path_is_reported :
  TestPath sample_files (str "docs") = true
  /\ stdout (run sample_files (str "docs") default_config)
     = report (str "docs") [] default_config
  /\ last (stdout (run sample_files (str "docs") default_config)) []
     = str "  PASS"
  /\ errors (run sample_files (str "docs") default_config) = []
  /\ exit_code (run sample_files (str "docs") default_config) = 0%Z.
Proof. repeat split; vm_compute; reflexivity. Qed.

(** ** Average paragraph length *)

Lemma fold_left_add_length (ps : list text) :
  forall acc,
    fold_left (fun acc p => acc + length (Trim p)) ps acc
    = acc + list_sum (map (fun p => length (Trim p)) ps).
Proof.
  induction ps as [|p ps IH]; intros acc;
    cbn [fold_left map list_sum fold_right].
  - lia.
  - rewrite IH. unfold list_sum. lia.
Qed.

Lemma totalParaChars_sum (content : text) :
  totalParaChars content
  = list_sum (map (fun p => length (Trim p)) (paragraphs content)).
Proof. unfold totalParaChars. rewrite fold_left_add_length. reflexivity. Qed.

(** [MathRound a b] is an integer nearest to [a / b], the even one of the
    two when [a / b] lies midway. *)
Lemma MathRound_nearest (a b : nat) :
  0 < b ->
  2 * a <= 2 * b * MathRound a b + b
  /\ 2 * b * MathRound a b <= 2 * a + b
  /\ (Nat.even (MathRound a b) = true
      \/ (2 * a < 2 * b * MathRound a b + b
          /\ 2 * b * MathRound a b < 2 * a + b)).
Proof.
  intros Hb. unfold MathRound.
  pose proof (Nat.div_mod_eq a b) as Hdm.
  pose proof (Nat.mod_upper_bound a b ltac:(lia)) as Hr.
  set (q := a / b) in *. set (r := a mod b) in *.
  destruct (Nat.ltb_spec (2 * r) b) as [H1|H1]; [nia|].
  destruct (Nat.ltb_spec b (2 * r)) as [H2|H2]; [nia|].
  destruct (Nat.even q) eqn:Hq.
  - repeat split; try nia. left. exact Hq.
  - repeat split; try nia. left.
    rewrite Nat.add_1_r, Nat.even_succ, <- Nat.negb_even, Hq. reflexivity.
Qed.

(** C7.  Without paragraphs the average is 0; otherwise it is an integer
    nearest to the sum of the trimmed paragraph lengths divided by the
    number of paragraphs, the even one at a midpoint. *)
Theorem average_paragraph_length (content : text) :
  let n := paragraphCount content in
  let total := list_sum (map (fun p => length (Trim p)) (paragraphs content)) in
  let avg := avgParaLen content in
  (n = 0 /\ avg = 0)
  \/ (0 < n
      /\ 2 * total <= 2 * n * avg + n
      /\ 2 * n * avg <= 2 * total + n
      /\ (Nat.even avg = true
          \/ (2 * total < 2 * n * avg + n /\ 2 * n * avg < 2 * total + n))).
Proof.
  intros n total avg. subst avg. unfold avgParaLen. fold n.
  destruct (Nat.ltb_spec 0 n) as [Hn|Hn].
  - right. split; [exact Hn|].
    rewrite totalParaChars_sum. fold total.
    apply MathRound_nearest. exact Hn.
  - left. split; [lia | reflexivity].
Qed.


(** ** The sections of the report *)

Lemma clash_starts_with (p q x : text) :
  clash p q = true -> starts_with p (q ++ x) = false.
Proof.
  revert q. induction p as [|a p IH]; intros [|b q] H; try discriminate H.
  cbn [clash] in H. cbn [app starts_with].
  destruct (N.eqb_spec a b); cbn [negb orb andb] in *;
    [apply IH; exact H | reflexivity].
Qed.

Lemma starts_with_app (p q x : text) :
  starts_with p q = true -> starts_with p (q ++ x) = true.
Proof.
  revert q. induction p as [|a p IH]; intros [|b q] H; try discriminate H;
    try reflexivity.
  cbn [starts_with app] in *.
  apply andb_true_iff in H as [H1 H2]. rewrite H1, IH by exact H2. reflexivity.
Qed.

Lemma not_heading (q x : text) :
  clash (str "--- ") q = true -> is_heading (q ++ x) = false.
Proof. apply clash_starts_with. Qed.

Lemma heading_app (q x : text) :
  is_heading q = true -> is_heading (q ++ x) = true.
Proof. apply starts_with_app. Qed.

Lemma headings_app (a b : list text) :
  headings (a ++ b) = headings a ++ headings b.
Proof. apply filter_app. Qed.

Lemma headings_cons (l : text) (r : list text) :
  headings (l :: r) = if is_heading l then l :: headings r else headings r.
Proof. reflexivity. Qed.

Lemma headings_hit_lines (hs : list MatchInfo) :
  headings (map hit_line hs) = [].
Proof.
  induction hs as [|h hs IH]; [reflexivity|].
  cbn [map]. rewrite headings_cons. unfold hit_line at 1.
  rewrite not_heading by reflexivity. exact IH.
Qed.

(** Decide [is_heading] of the next line of a list literal. *)
Ltac next_heading :=
  rewrite headings_cons;
  first [ rewrite not_heading by reflexivity
        | rewrite heading_app by reflexivity
        | match goal with
          | |- context [is_heading ?l] =>
              let b := eval vm_compute in (is_heading l) in
              change (is_heading l) with b
          end ];
  cbv iota.

Lemma headings_header (Path content : text) :
  headings (header_section Path content) = [].
Proof. unfold header_section. repeat next_heading. reflexivity. Qed.

Lemma headings_paragraph (content : text) cfg :
  headings (paragraph_section content cfg) = [str "--- Paragraph Analysis ---"].
Proof. unfold paragraph_section. repeat next_heading. reflexivity. Qed.

Lemma headings_pattern_counts (content : text) :
  headings (pattern_counts_section content) = [str "--- Pattern Counts ---"].
Proof.
  unfold pattern_counts_section, patterns. cbn [map fst snd].
  repeat next_heading. reflexivity.
Qed.

Lemma headings_hit_lines_section (content : text) :
  headings (hit_lines_section content) = [str "--- Hit Lines (er_shi|ni_hui) ---"].
Proof.
  unfold hit_lines_section. rewrite headings_app.
  repeat next_heading.
  destruct (some_hits (hits content)); [rewrite headings_hit_lines|];
    reflexivity.
Qed.

Lemma headings_colon_lines (content : text) cfg :
  headings (colon_lines_section content cfg) = [str "--- Colon Lines ---"].
Proof.
  unfold colon_lines_section. rewrite headings_app.
  repeat next_heading.
  destruct (some_hits (colonHits content cfg));
    [rewrite headings_hit_lines|]; reflexivity.
Qed.

Lemma headings_colon_violations (content : text) cfg :
  headings (colon_violations_section content cfg)
  = if 0 <? length (colonViolations content cfg)
    then [str "--- Colon Violations (non-quote usage) ---"] else [].
Proof.
  unfold colon_violations_section. next_heading.
  destruct (0 <? length (colonViolations content cfg)); [|reflexivity].
  next_heading. rewrite headings_hit_lines. reflexivity.
Qed.

Lemma exclChar_not_terminator : exclChar <> LF /\ exclChar <> CR.
Proof. split; discriminate. Qed.

Lemma headings_exclamation (content : text) :
  headings (exclamation_section content)
  = if 0 <? exclCount content
    then [str "--- Exclamation Mark Lines ---"] else [].
Proof.
  destruct exclChar_not_terminator as [Hlf Hcr].
  unfold exclamation_section, exclHits, exclCount, count. next_heading.
  rewrite (SelectString_some Hlf Hcr), MatchesCount_char.
  destruct (0 <? count_occ N.eq_dec content exclChar); [|reflexivity].
  next_heading. rewrite headings_hit_lines. reflexivity.
Qed.

Lemma headings_dash (content : text) :
  headings (dash_section content)
  = if 3 <? dashCount content
    then [str "--- Dash Warning (>3 occurrences: "
            ++ dec (Z.of_nat (dashCount content)) ++ str ") ---"]
    else [].
Proof.
  unfold dash_section. next_heading.
  destruct (3 <? dashCount content); [|reflexivity].
  next_heading.
  destruct (some_hits (dashHits content)); [rewrite headings_hit_lines|];
    reflexivity.
Qed.

Lemma headings_metaphor (content : text) :
  headings (metaphor_section content)
  = [str "--- Metaphor Markers (rough screen) ---"].
Proof.
  unfold metaphor_section. rewrite headings_app. repeat next_heading.
  destruct (0 <? metaphorCount content); [rewrite headings_hit_lines|];
    reflexivity.
Qed.

Lemma headings_double_adj (content : text) :
  headings (double_adj_section content)
  = if 0 <? doubleAdjCount content
    then [str "--- Double Adjective Warning (A" ++ double_adj ++ str "B) ---"]
    else [].
Proof.
  unfold double_adj_section. next_heading.
  destruct (0 <? doubleAdjCount content); [|reflexivity].
  repeat next_heading. rewrite headings_hit_lines. reflexivity.
Qed.

Lemma headings_issue_lines (ms : list text) :
  headings (map (fun issue => str "  - " ++ issue) ms) = [].
Proof.
  induction ms as [|m ms IH]; [reflexivity|].
  cbn [map]. rewrite headings_cons, not_heading by reflexivity. exact IH.
Qed.

Lemma headings_result (content : text) cfg :
  headings (result_section content cfg) = [].
Proof.
  unfold result_section. rewrite headings_app. repeat next_heading.
  destruct (length (issues content cfg) =? 0).
  - reflexivity.
  - next_heading. apply headings_issue_lines.
Qed.

Lemma none_is_no_hit_line (hs : list MatchInfo) :
  ~ In (str "  none") (map hit_line hs).
Proof.
  intros H. apply in_map_iff in H as (h & E & _).
  apply (f_equal (firstn 3)) in E. unfold hit_line in E.
  rewrite firstn_str_app in E by (vm_compute; lia). discriminate E.
Qed.

(** C5, as the script has it.  The headings of the report are, in this
    order: Paragraph Analysis, Pattern Counts, Hit Lines and Colon Lines,
    always; Colon Violations when there is a violation; Exclamation Mark
    Lines when the exclamation count is not zero; Dash Warning when the
    dash count is above 3; Metaphor Markers, always, with its count line;
    Double Adjective Warning when its count is not zero.  The Hit Lines and
    Colon Lines sections hold the placeholder [none] exactly when they have
    no hit. *)
Theorem report_sections (Path content : text) (cfg : Config) :
  headings (report Path content cfg)
  = [ str "--- Paragraph Analysis ---"; str "--- Pattern Counts ---";
      str "--- Hit Lines (er_shi|ni_hui) ---"; str "--- Colon Lines ---" ]
    ++ (if 0 <? length (colonViolations content cfg)
        then [str "--- Colon Violations (non-quote usage) ---"] else [])
    ++ (if 0 <? exclCount content
        then [str "--- Exclamation Mark Lines ---"] else [])
    ++ (if 3 <? dashCount content
        then [str "--- Dash Warning (>3 occurrences: "
                ++ dec (Z.of_nat (dashCount content)) ++ str ") ---"]
        else [])
    ++ [str "--- Metaphor Markers (rough screen) ---"]
    ++ (if 0 <? doubleAdjCount content
        then [str "--- Double Adjective Warning (A" ++ double_adj
                ++ str "B) ---"]
        else [])
  /\ (In (str "  none") (hit_lines_section content) <-> hits content = [])
  /\ (In (str "  none") (colon_lines_section content cfg)
      <-> colonHits content cfg = [])
  /\ In (str "  Count: " ++ dec (Z.of_nat (metaphorCount content)))
        (metaphor_section content).
Proof.
  repeat match goal with |- _ /\ _ => split end.
  - unfold report. rewrite !headings_app.
    rewrite headings_header, headings_paragraph, headings_pattern_counts,
      headings_hit_lines_section, headings_colon_lines,
      headings_colon_violations, headings_exclamation, headings_dash,
      headings_metaphor, headings_double_adj, headings_result.
    rewrite app_nil_r. reflexivity.
  - unfold hit_lines_section. pose proof (none_is_no_hit_line (hits content)).
    destruct (hits content) as [|h hs];  cbn [some_hits].
    + split; [reflexivity|]. intros _. simpl. tauto.
    + split; [|discriminate]. intros [E|[E|E]]; try discriminate E. tauto.
  - unfold colon_lines_section.
    pose proof (none_is_no_hit_line (colonHits content cfg)).
    destruct (colonHits content cfg) as [|h hs];  cbn [some_hits].
    + split; [reflexivity|]. intros _. simpl. tauto.
    + split; [|discriminate]. intros [E|[E|E]]; try discriminate E. tauto.
  - unfold metaphor_section. simpl. tauto.
Qed.

(** C5, as the specification has it, fails for two sections: the Metaphor
    Markers section is written for a document without metaphor markers, and
    the Dash Warning section is left out for a document with one double
    dash. *)
Lemma dash_and_metaphor_sections_differ :
  (metaphorCount plain_doc = 0
   /\ In (str "--- Metaphor Markers (rough screen) ---")
         (report (str "a.txt") plain_doc default_config))
  /\ (dashCount one_dash = 1
      /\ existsb (starts_with (str "--- Dash Warning"))
           (report (str "a.txt") one_dash default_config) = false).
Proof.
  repeat split; try (vm_compute; reflexivity).
  vm_compute. tauto.
Qed.

(** ** Trimming *)

Lemma blank_app (a b : text) : blank (a ++ b) = blank a && blank b.
Proof. apply forallb_app. Qed.

Lemma blank_rev (a : text) : blank (rev a) = blank a.
Proof.
  induction a as [|c a IH]; [reflexivity|].
  cbn [rev]. rewrite blank_app, IH. cbn [blank forallb].
  rewrite andb_true_r. apply andb_comm.
Qed.

Lemma TrimStart_blank (w : text) : blank w = true -> TrimStart w = [].
Proof.
  induction w as [|c w IH]; [reflexivity|].
  cbn [blank forallb TrimStart]. intros H.
  apply andb_true_iff in H as [Hc Hw]. rewrite Hc. apply IH, Hw.
Qed.

Lemma TrimStart_blank_app (w x : text) :
  blank w = true -> TrimStart (w ++ x) = TrimStart x.
Proof.
  induction w as [|c w IH]; [reflexivity|].
  cbn [blank forallb TrimStart app]. intros H.
  apply andb_true_iff in H as [Hc Hw]. rewrite Hc. apply IH, Hw.
Qed.

Lemma TrimStart_solid (s : text) : solid_head s = true -> TrimStart s = s.
Proof.
  destruct s as [|c s]; [discriminate|].
  cbn [solid_head TrimStart]. intros H.
  apply negb_true_iff in H. rewrite H. reflexivity.
Qed.

(** [TrimStart] removes a blank prefix and stops at a solid character. *)
Lemma TrimStart_split (s : text) :
  exists w, blank w = true /\ s = w ++ TrimStart s
            /\ (TrimStart s = [] \/ solid_head (TrimStart s) = true).
Proof.
  induction s as [|c s (w & Hw & Hs & Hh)].
  - exists []. repeat split. left. reflexivity.
  - cbn [TrimStart]. destruct (IsWhiteSpace c) eqn:Hc.
    + exists (c :: w). cbn [blank forallb]. rewrite Hc.
      repeat split; [exact Hw | cbn [app]; f_equal; exact Hs | exact Hh].
    + exists []. repeat split. right. cbn [solid_head]. rewrite Hc. reflexivity.
Qed.

Lemma TrimStart_keeps_solid (a b : text) (y : char) :
  IsWhiteSpace y = false -> TrimStart (a ++ y :: b) = TrimStart a ++ y :: b.
Proof.
  intros Hy. induction a as [|c a IH]; cbn [app TrimStart].
  - rewrite Hy. reflexivity.
  - destruct (IsWhiteSpace c); [exact IH | reflexivity].
Qed.

Lemma TrimEnd_blank_app (x w : text) :
  blank w = true -> TrimEnd (x ++ w) = TrimEnd x.
Proof.
  intros Hw. unfold TrimEnd. rewrite rev_app_distr.
  rewrite TrimStart_blank_app by (rewrite blank_rev; exact Hw). reflexivity.
Qed.

Lemma TrimEnd_split (s : text) :
  exists w, blank w = true /\ s = TrimEnd s ++ w.
Proof.
  destruct (TrimStart_split (rev s)) as (w & Hw & Hs & _).
  exists (rev w). rewrite blank_rev. split; [exact Hw|].
  unfold TrimEnd. rewrite <- rev_app_distr, <- Hs, rev_involutive. reflexivity.
Qed.

Lemma Trim_blank (w : text) : blank w = true -> Trim w = [].
Proof. intros H. unfold Trim. rewrite TrimStart_blank by exact H. reflexivity. Qed.

Lemma Trim_blank_app (w x : text) :
  blank w = true -> Trim (w ++ x) = Trim x.
Proof.
  intros H. unfold Trim. rewrite TrimStart_blank_app by exact H. reflexivity.
Qed.

Lemma Trim_app_blank (x w : text) :
  blank w = true -> Trim (x ++ w) = Trim x.
Proof.
  intros Hw. unfold Trim.
  destruct (TrimStart_split x) as (u & Hu & Hx & [He|Hs]).
  - rewrite He in *. rewrite app_nil_r in Hx. subst u.
    rewrite TrimStart_blank by (rewrite blank_app, Hu, Hw; reflexivity).
    reflexivity.
  - destruct (TrimStart x) as [|y v] eqn:E; [discriminate|].
    cbn [solid_head] in Hs. apply negb_true_iff in Hs.
    rewrite Hx at 1. rewrite <- app_assoc, TrimStart_blank_app by exact Hu.
    cbn [app TrimStart]. rewrite Hs.
    change (y :: v ++ w) with ((y :: v) ++ w).
    apply TrimEnd_blank_app, Hw.
Qed.

(** A text is its trimmed text between two blank texts. *)
Lemma Trim_split (s : text) :
  exists w1 w2, blank w1 = true /\ blank w2 = true /\ s = w1 ++ Trim s ++ w2.
Proof.
  destruct (TrimStart_split s) as (w1 & H1 & Hs & _).
  destruct (TrimEnd_split (TrimStart s)) as (w2 & H2 & Ht).
  exists w1, w2. repeat split; try assumption.
  unfold Trim. rewrite <- Ht. exact Hs.
Qed.

(** A trimmed text is empty, or begins and ends with a solid character. *)
Lemma Trim_solid (s : text) :
  Trim s = [] \/ (solid_head (Trim s) = true /\ solid_head (rev (Trim s)) = true).
Proof.
  unfold Trim, TrimEnd.
  destruct (TrimStart_split s) as (_ & _ & _ & [He|Hs]).
  - left. rewrite He. reflexivity.
  - right. destruct (TrimStart s) as [|y v]; [discriminate|].
    cbn [solid_head] in Hs. apply negb_true_iff in Hs.
    cbn [rev]. rewrite (@TrimStart_keeps_solid (rev v) [] y Hs).
    rewrite rev_involutive, rev_app_distr. cbn [rev app solid_head].
    rewrite Hs. split; [reflexivity|].
    destruct (TrimStart_split (rev v)) as (_ & _ & _ & [He|Hh]).
    + rewrite He. cbn [app solid_head]. rewrite Hs. reflexivity.
    + destruct (TrimStart (rev v)); [discriminate | exact Hh].
Qed.

Lemma Trim_fixed (s : text) :
  solid_head s = true -> solid_head (rev s) = true -> Trim s = s.
Proof.
  intros H1 H2. unfold Trim, TrimEnd.
  rewrite (@TrimStart_solid s H1), (@TrimStart_solid (rev s) H2).
  apply rev_involutive.
Qed.

(** ** Line breaks *)

Lemma text_ind2 (P : text -> Prop) :
  P [] -> (forall c, P [c]) ->
  (forall c d r, P r -> P (d :: r) -> P (c :: d :: r)) ->
  forall s, P s.
Proof.
  intros H0 H1 H2 s.
  enough (H : P s /\ forall c, P (c :: s)) by apply H.
  induction s as [|d r [IHr IHd]]; split; auto.
Qed.

Lemma solid_not_terminator (c : char) :
  IsWhiteSpace c = false -> c <> LF /\ c <> CR.
Proof. intros H. split; intros ->; discriminate H. Qed.

Lemma line_breaks_cons (c : char) (r : text) :
  line_breaks (c :: r) =
    if (c =? LF)%N then [LF] :: line_breaks r
    else if (c =? CR)%N then
      match r with
      | [] => []
      | d :: r' => if (d =? LF)%N then [CR; LF] :: line_breaks r' else []
      end
    else [].
Proof. reflexivity. Qed.

Lemma line_breaks_solid (s : text) :
  s = [] \/ solid_head s = true -> line_breaks s = [].
Proof.
  intros [->|H]; [reflexivity|].
  destruct s as [|c r]; [discriminate|].
  cbn [solid_head] in H. apply negb_true_iff, solid_not_terminator in H as [H1 H2].
  rewrite line_breaks_cons.
  destruct (N.eqb_spec c LF); [contradiction|].
  destruct (N.eqb_spec c CR); [contradiction|]. reflexivity.
Qed.

Ltac break_cases c :=
  rewrite line_breaks_cons;
  destruct (N.eqb_spec c LF) as [->|?];
  [|destruct (N.eqb_spec c CR) as [->|?]].

(** A match of line breaks ends before the first solid character. *)
Lemma line_breaks_within (s : text) :
  s = [] \/ solid_head s = true ->
  forall w, length (concat (line_breaks (w ++ s))) <= length w.
Proof.
  intros Hs w. pose proof (line_breaks_solid Hs) as Hnil.
  induction w as [|c|c d r IH1 IH2] using text_ind2.
  - cbn [app]. rewrite Hnil. apply Nat.le_refl.
  - cbn [app]. break_cases c.
    + rewrite Hnil. cbn. lia.
    + destruct s as [|d s']; [cbn; lia|].
      destruct Hs as [Hs|Hs]; [discriminate|].
      cbn [solid_head] in Hs.
      apply negb_true_iff, solid_not_terminator in Hs as [H1 _].
      destruct (N.eqb_spec d LF); [contradiction | cbn; lia].
    + cbn; lia.
  - cbn [app] in *. break_cases c.
    + cbn [concat length app] in *. lia.
    + destruct (N.eqb_spec d LF); cbn [concat length app] in *; lia.
    + cbn; lia.
Qed.

(** What follows a solid character does not change the match. *)
Lemma line_breaks_stable (s t : text) :
  blank s = false -> line_breaks (s ++ t) = line_breaks s.
Proof.
  induction s as [|c|c d r IH1 IH2] using text_ind2; intros Hb.
  - discriminate Hb.
  - cbn [blank forallb] in Hb. rewrite andb_true_r in Hb.
    apply solid_not_terminator in Hb as [H1 H2].
    cbn [app]. rewrite !line_breaks_cons.
    destruct (N.eqb_spec c LF); [contradiction|].
    destruct (N.eqb_spec c CR); [contradiction|]. reflexivity.
  - cbn [app] in *.
    rewrite (line_breaks_cons c (d :: r ++ t)), (line_breaks_cons c (d :: r)).
    destruct (N.eqb_spec c LF) as [->|?].
    + rewrite IH2; [reflexivity | exact Hb].
    + destruct (N.eqb_spec c CR) as [->|?]; [|reflexivity].
      destruct (N.eqb_spec d LF) as [->|?]; [|reflexivity].
      rewrite IH1; [reflexivity | exact Hb].
Qed.

Lemma line_breaks_mono (p t : text) :
  length (line_breaks p) <= length (line_breaks (p ++ t)).
Proof.
  induction p as [|c|c d r IH1 IH2] using text_ind2.
  - apply Nat.le_0_l.
  - cbn [app]. rewrite !line_breaks_cons.
    destruct (N.eqb_spec c LF); [cbn; lia|].
    destruct (N.eqb_spec c CR); cbn; lia.
  - cbn [app] in *.
    rewrite (line_breaks_cons c (d :: r ++ t)), (line_breaks_cons c (d :: r)).
    destruct (N.eqb_spec c LF); [cbn [length]; lia|].
    destruct (N.eqb_spec c CR); [|cbn; lia].
    destruct (N.eqb_spec d LF); cbn [length]; lia.
Qed.

Lemma line_breaks_tokens (s : text) :
  Forall (fun t => t = [LF] \/ t = [CR; LF]) (line_breaks s).
Proof.
  induction s as [|c|c d r IH1 IH2] using text_ind2.
  - constructor.
  - rewrite line_breaks_cons.
    destruct (N.eqb_spec c LF); [repeat constructor|].
    destruct (N.eqb_spec c CR); constructor.
  - rewrite line_breaks_cons.
    destruct (N.eqb_spec c LF); [constructor; [left; reflexivity | exact IH2]|].
    destruct (N.eqb_spec c CR); [|constructor].
    destruct (N.eqb_spec d LF); constructor; [right; reflexivity | exact IH1].
Qed.

Lemma last_token (s : text) :
  let cap := last (line_breaks s) [] in
  cap = [] \/ cap = [LF] \/ cap = [CR; LF].
Proof.
  cbv zeta. pose proof (line_breaks_tokens s) as H.
  induction H as [|t ts Ht Hts IH]; [left; reflexivity|].
  destruct ts as [|t' ts']; [right; exact Ht | exact IH].
Qed.

Lemma breaks_here_mono (p t : text) :
  breaks_here (p ++ t) = false -> breaks_here p = false.
Proof.
  unfold breaks_here. rewrite !Nat.leb_gt.
  pose proof (line_breaks_mono p t). lia.
Qed.

Lemma breaks_here_stable (s t : text) :
  blank s = false -> breaks_here (s ++ t) = breaks_here s.
Proof.
  intros H. unfold breaks_here.
  rewrite line_breaks_stable by exact H. reflexivity.
Qed.

Lemma paragraph_break_eq (s : text) :
  paragraph_break s =
    if breaks_here s
    then Some (length (concat (line_breaks s)), [last (line_breaks s) []])
    else None.
Proof. reflexivity. Qed.

Lemma break_run_eq (s : text) :
  break_run s =
    if breaks_here s then Some (length (concat (line_breaks s)), []) else None.
Proof. reflexivity. Qed.

(** ** Splitting *)

Section Splitting.

Variable m : text -> option (nat * list text).

Lemma Split_from_skip (k : nat) (cur : text) (c : char) (r : text) :
  Split_from m (S k) cur (c :: r) = Split_from m k cur r.
Proof. reflexivity. Qed.

Lemma Split_from_here (cur : text) (c : char) (r : text) :
  Split_from m 0 cur (c :: r) =
    match m (c :: r) with
    | Some (n, caps) => rev cur :: caps ++ Split_from m (pred n) [] r
    | None => Split_from m 0 (c :: cur) r
    end.
Proof. reflexivity. Qed.

Lemma prepend_prepend (x y : text) (l : list text) :
  prepend x (prepend y l) = prepend (x ++ y) l.
Proof. destruct l; cbn [prepend]; rewrite ?app_assoc; reflexivity. Qed.

(** The piece being read goes in front of the first piece still to come. *)
Lemma Split_from_prepend (s : text) :
  forall k cur, Split_from m k cur s = prepend (rev cur) (Split_from m k [] s).
Proof.
  induction s as [|c r IH]; intros k cur.
  - cbn. rewrite app_nil_r. reflexivity.
  - destruct k as [|k]; [|rewrite !Split_from_skip; apply IH].
    rewrite !Split_from_here. destruct (m (c :: r)) as [[n caps]|].
    + cbn [prepend rev app]. rewrite app_nil_r. reflexivity.
    + rewrite (IH 0 (c :: cur)), (IH 0 [c]), prepend_prepend. reflexivity.
Qed.

End Splitting.

Lemma trimmed_cons (x : text) (l : list text) :
  trimmed (x :: l) = (if 0 <? length (Trim x) then [Trim x] else []) ++ trimmed l.
Proof.
  unfold trimmed. cbn [map filter].
  destruct (0 <? length (Trim x)); reflexivity.
Qed.

Lemma trimmed_blank (x : text) (l : list text) :
  blank x = true -> trimmed (x :: l) = trimmed l.
Proof. intros H. rewrite trimmed_cons, (Trim_blank x H). reflexivity. Qed.

Lemma trimmed_prepend (x : text) (l : list text) :
  blank x = true -> trimmed (prepend x l) = trimmed l.
Proof.
  intros H. destruct l as [|h t]; cbn [prepend].
  - apply trimmed_blank, H.
  - rewrite !trimmed_cons, (Trim_blank_app x h H). reflexivity.
Qed.

Lemma token_blank (s : text) : blank (last (line_breaks s) []) = true.
Proof. destruct (last_token s) as [E|[E|E]]; rewrite E; reflexivity. Qed.

(** The captured line breaks vanish with the empty pieces. *)
Lemma trimmed_without_captures (s : text) :
  forall k cur,
    trimmed (Split_from paragraph_break k cur s)
    = trimmed (Split_from break_run k cur s).
Proof.
  induction s as [|c r IH]; intros k cur; [reflexivity|].
  destruct k as [|k]; [|rewrite !Split_from_skip; apply IH].
  rewrite !Split_from_here, paragraph_break_eq, break_run_eq.
  destruct (breaks_here (c :: r)); [|apply IH].
  cbn [app]. rewrite !(trimmed_cons (rev cur)).
  rewrite trimmed_blank by apply token_blank.
  rewrite IH. reflexivity.
Qed.

(** A blank text splits into blank pieces. *)
Lemma split_blank (w : text) :
  blank w = true ->
  forall k cur,
    trimmed (Split_from break_run k cur w) = trimmed [rev cur].
Proof.
  induction w as [|c w IH]; intros Hw k cur; [reflexivity|].
  cbn [blank forallb] in Hw. apply andb_true_iff in Hw as [Hc Hw].
  destruct k as [|k]; [|rewrite Split_from_skip; apply IH, Hw].
  rewrite Split_from_here, break_run_eq.
  destruct (breaks_here (c :: w)).
  - cbn [app]. rewrite trimmed_cons, (IH Hw), !trimmed_cons. reflexivity.
  - rewrite (IH Hw). cbn [rev]. rewrite !trimmed_cons.
    rewrite Trim_app_blank; [reflexivity|].
    cbn [blank forallb]. rewrite Hc. reflexivity.
Qed.

Lemma solid_head_app (l x : text) :
  l <> [] -> solid_head (l ++ x) = solid_head l.
Proof. destruct l; [contradiction | reflexivity]. Qed.

Lemma solid_end_not_blank (s : text) :
  solid_head (rev s) = true -> blank s = false.
Proof.
  intros H. rewrite <- blank_rev. destruct (rev s) as [|z ri]; [discriminate|].
  cbn [solid_head] in H. apply negb_true_iff in H.
  cbn [blank forallb]. rewrite H. reflexivity.
Qed.

(** A match that starts in a text ending with a solid character ends
    before that character. *)
Lemma break_before_solid_end (s : text) :
  solid_head (rev s) = true -> length (concat (line_breaks s)) < length s.
Proof.
  intros H. destruct (rev s) as [|z ri] eqn:E; [discriminate|].
  apply (f_equal (@rev N)) in E. rewrite rev_involutive in E. cbn [rev] in E.
  subst s. rewrite length_app. cbn [length].
  assert (Hz : [z] = [] \/ solid_head [z] = true) by (right; exact H).
  pose proof (line_breaks_within Hz (rev ri)). lia.
Qed.

(** Blank text in front of a document adds blank pieces only. *)
Lemma split_leading (s : text) :
  s = [] \/ solid_head s = true ->
  forall w, blank w = true ->
  forall k cur, k <= length w -> blank cur = true ->
    trimmed (Split_from break_run k cur (w ++ s))
    = trimmed (Split_from break_run 0 [] s).
Proof.
  intros Hs. induction w as [|c w IH]; intros Hw k cur Hk Hcur.
  - cbn [length] in Hk. replace k with 0 by lia. cbn [app].
    rewrite Split_from_prepend. apply trimmed_prepend.
    rewrite blank_rev. exact Hcur.
  - cbn [blank forallb] in Hw. apply andb_true_iff in Hw as [Hc Hw].
    cbn [length] in Hk. cbn [app].
    destruct k as [|k];
      [|rewrite Split_from_skip; apply IH; [assumption|lia|assumption]].
    rewrite Split_from_here, break_run_eq.
    pose proof (line_breaks_within Hs (c :: w)) as Hlen.
    cbn [length app] in Hlen.
    destruct (breaks_here (c :: w ++ s)).
    + cbn [app]. rewrite trimmed_blank by (rewrite blank_rev; exact Hcur).
      apply IH; [assumption | lia | reflexivity].
    + apply IH; [assumption | lia |].
      cbn [blank forallb]. rewrite Hc. exact Hcur.
Qed.

(** Blank text after a document adds blank pieces only. *)
Lemma split_trailing (w2 : text) :
  blank w2 = true ->
  forall core, solid_head (rev core) = true ->
  forall k cur, k < length core ->
    trimmed (Split_from break_run k cur (core ++ w2))
    = trimmed (Split_from break_run k cur core).
Proof.
  intros Hw2. induction core as [|c r IH]; intros Hsolid k cur Hk;
    [discriminate|].
  pose proof (solid_end_not_blank _ Hsolid) as Hnb.
  pose proof (break_before_solid_end _ Hsolid) as Hlen.
  cbn [length] in Hk, Hlen.
  destruct r as [|d r'].
  - cbn [length] in Hk. replace k with 0 by lia. cbn [app].
    rewrite !Split_from_here, !break_run_eq.
    cbn [rev app solid_head] in Hsolid.
    assert (Hc : breaks_here (c :: w2) = false).
    { unfold breaks_here. rewrite line_breaks_solid; [reflexivity|].
      right. exact Hsolid. }
    assert (Hc' : breaks_here [c] = false).
    { unfold breaks_here. rewrite line_breaks_solid; [reflexivity|].
      right. exact Hsolid. }
    rewrite Hc, Hc'. apply split_blank, Hw2.
  - assert (Hr : solid_head (rev (d :: r')) = true).
    { cbn [rev] in Hsolid |- *. rewrite solid_head_app in Hsolid; [exact Hsolid|].
      intros E. apply (f_equal (@length N)) in E.
      rewrite length_app in E. cbn in E. lia. }
    cbn [length] in Hk, Hlen.
    destruct k as [|k].
    + change ((c :: d :: r') ++ w2) with (c :: (d :: r') ++ w2).
      rewrite !Split_from_here, !break_run_eq.
      change (c :: (d :: r') ++ w2) with ((c :: d :: r') ++ w2).
      rewrite breaks_here_stable, line_breaks_stable by exact Hnb.
      destruct (breaks_here (c :: d :: r')).
      * cbn [app]. rewrite !(trimmed_cons (rev cur)). f_equal.
        apply IH; [exact Hr | cbn [length]; lia].
      * apply IH; [exact Hr | cbn [length]; lia].
    + change ((c :: d :: r') ++ w2) with (c :: (d :: r') ++ w2).
      rewrite !Split_from_skip. apply IH; [exact Hr | cbn [length]; lia].
Qed.

(** Trimming the document first does not change the trimmed pieces. *)
Lemma trimmed_split_Trim (content : text) :
  trimmed (Split break_run (Trim content))
  = trimmed (Split break_run content).
Proof.
  destruct (Trim_split content) as (w1 & w2 & H1 & H2 & E).
  unfold Split.
  destruct (Trim_solid content) as [He|[Hs He]].
  - rewrite He in *. cbn [app] in E.
    rewrite (split_blank content); [reflexivity|].
    rewrite E, blank_app, H1, H2. reflexivity.
  - assert (Hne : Trim content <> []).
    { intros E0. rewrite E0 in Hs. discriminate Hs. }
    rewrite E at 2.
    rewrite (@split_leading (Trim content ++ w2)); try assumption;
      try reflexivity; try apply Nat.le_0_l.
    + symmetry. apply split_trailing; [exact H2 | exact He |].
      destruct (Trim content); [contradiction | cbn; lia].
    + right. rewrite solid_head_app by exact Hne. exact Hs.
Qed.

(** ** Paragraphs *)

Lemma all_LF_blank (r : text) : forallb (N.eqb LF) r = true -> blank r = true.
Proof.
  induction r as [|c r IH]; [reflexivity|]. cbn [forallb].
  intros H. apply andb_true_iff in H as [Hc Hr].
  apply N.eqb_eq in Hc. subst c.
  change (blank (LF :: r)) with (blank r). exact (IH Hr).
Qed.

Lemma only_newlines_blank (p : text) : only_newlines p = true -> blank p = true.
Proof.
  unfold only_newlines. destruct p as [|c r]; [discriminate|].
  destruct (N.eqb_spec c CR) as [->|_].
  - destruct r; [discriminate|]. intros H.
    change (blank (CR :: n :: r)) with (blank (n :: r)).
    apply all_LF_blank, H.
  - apply all_LF_blank.
Qed.

Lemma map_filter_swap (A B : Type) (g : A -> B) (f : B -> bool) (l : list A) :
  map g (filter (fun x => f (g x)) l) = filter f (map g l).
Proof.
  induction l as [|x l IH]; [reflexivity|]. cbn [map filter].
  destruct (f (g x)); cbn [map]; rewrite IH; reflexivity.
Qed.

(** The second test of the paragraph filter never decides. *)
Lemma paragraph_filter (p : text) :
  (0 <? length (Trim p)) && negb (only_newlines p) = (0 <? length (Trim p)).
Proof.
  destruct (only_newlines p) eqn:E; [|apply andb_true_r].
  rewrite (Trim_blank p (only_newlines_blank p E)). reflexivity.
Qed.

Lemma paragraphs_trimmed (content : text) :
  map Trim (paragraphs content)
  = trimmed (Split paragraph_break (Trim content)).
Proof.
  unfold paragraphs, trimmed.
  rewrite (filter_ext _ _ paragraph_filter).
  apply (map_filter_swap Trim (fun p => 0 <? length p)).
Qed.

Lemma paragraphs_nonempty (content : text) :
  Forall (fun p => 0 < length (Trim p)) (paragraphs content).
Proof.
  unfold paragraphs. apply Forall_forall. intros p Hp.
  apply filter_In in Hp as [_ Hp]. apply andb_true_iff in Hp as [Hp _].
  apply Nat.ltb_lt, Hp.
Qed.

(** ** Pieces without a paragraph break *)

Lemma quiet_snoc (p : text) (c : char) (r : text) :
  quiet p (c :: r) -> breaks_here (c :: r) = false -> quiet (p ++ [c]) r.
Proof.
  intros Hq Hc. induction p as [|a p IH]; cbn [app quiet] in *.
  - split; [exact Hc | exact I].
  - destruct Hq as [Ha Hq]. split; [|apply IH, Hq].
    rewrite <- app_assoc. exact Ha.
Qed.

Lemma quiet_app_inv (a b s : text) :
  quiet (a ++ b) s -> quiet a (b ++ s) /\ quiet b s.
Proof.
  induction a as [|c a IH]; cbn [app quiet]; intros H.
  - split; [exact I | exact H].
  - destruct H as [Hc H]. destruct (IH H) as [Ha Hb].
    repeat split; try assumption. rewrite <- app_assoc in Hc. exact Hc.
Qed.

Lemma quiet_mono (p s : text) : quiet p s -> quiet p [].
Proof.
  induction p as [|c p IH]; cbn [quiet]; [trivial|].
  intros [Hc Hp]. split; [|apply IH, Hp].
  rewrite app_nil_r. exact (breaks_here_mono _ _ Hc).
Qed.

(** A piece that ends with a solid character stays without a break
    whatever follows it. *)
Lemma quiet_solid_end (t q : text) :
  solid_head (rev q) = true -> quiet q [] -> quiet q t.
Proof.
  induction q as [|c q IH]; cbn [quiet]; [trivial|].
  intros Hs [Hc Hq]. split.
  - rewrite breaks_here_stable by exact (solid_end_not_blank _ Hs).
    rewrite app_nil_r in Hc. exact Hc.
  - destruct q as [|d q']; [exact I|]. apply IH; [|exact Hq].
    cbn [rev] in Hs |- *. rewrite solid_head_app in Hs; [exact Hs|].
    intros E. apply (f_equal (@length N)) in E.
    rewrite length_app in E. cbn in E. lia.
Qed.

Lemma quiet_Trim (p : text) : quiet p [] -> quiet (Trim p) [].
Proof.
  intros H. destruct (Trim_split p) as (w1 & w2 & _ & _ & E).
  rewrite E in H. apply quiet_app_inv in H as [_ H].
  apply quiet_app_inv in H as [H _]. exact (quiet_mono _ _ H).
Qed.

Lemma Split_from_skipn (m : text -> option (nat * list text)) (s : text) :
  forall k cur, Split_from m k cur s = Split_from m 0 cur (skipn k s).
Proof.
  induction s as [|c r IH]; intros k cur.
  - destruct k; reflexivity.
  - destruct k as [|k]; [reflexivity|]. rewrite Split_from_skip. apply IH.
Qed.

(** The scanner passes over a text in which no break starts. *)
Lemma Split_through_quiet (t q : text) :
  forall cur, quiet q t ->
    Split_from paragraph_break 0 cur (q ++ t)
    = Split_from paragraph_break 0 (rev q ++ cur) t.
Proof.
  induction q as [|c q IH]; intros cur Hq; [reflexivity|].
  cbn [quiet] in Hq. destruct Hq as [Hc Hq].
  change ((c :: q) ++ t) with (c :: q ++ t) in *.
  rewrite Split_from_here, paragraph_break_eq, Hc, (IH _ Hq).
  cbn [rev]. rewrite <- app_assoc. reflexivity.
Qed.

Lemma capture_quiet (s : text) : quiet (last (line_breaks s) []) [].
Proof.
  destruct (last_token s) as [E|[E|E]]; rewrite E; cbn; auto.
Qed.

(** No piece of a split holds a paragraph break. *)
Lemma pieces_quiet (s : text) :
  forall k cur, k = 0 \/ cur = [] -> quiet (rev cur) s ->
    Forall (fun p => quiet p []) (Split_from paragraph_break k cur s).
Proof.
  induction s as [|c r IH]; intros k cur Hk Hq.
  - constructor; [exact Hq | constructor].
  - destruct k as [|k].
    + rewrite Split_from_here, paragraph_break_eq.
      destruct (breaks_here (c :: r)) eqn:Hc.
      * constructor; [exact (quiet_mono _ _ Hq)|].
        constructor; [apply capture_quiet|].
        apply IH; [right; reflexivity | exact I].
      * apply IH; [left; reflexivity|]. cbn [rev]. apply quiet_snoc; assumption.
    + destruct Hk as [Hk| ->]; [discriminate|].
      rewrite Split_from_skip. apply IH; [right; reflexivity | exact I].
Qed.

Lemma paragraphs_whole (content : text) :
  Forall whole (map Trim (paragraphs content)).
Proof.
  apply Forall_map, Forall_forall. intros p Hp.
  pose proof (paragraphs_nonempty content) as Hne.
  rewrite Forall_forall in Hne. specialize (Hne p Hp).
  unfold paragraphs in Hp. apply filter_In in Hp as [Hp _].
  pose proof (@pieces_quiet (Trim content) 0 [] (or_introl eq_refl) I) as Hq.
  rewrite Forall_forall in Hq. specialize (Hq p Hp).
  destruct (Trim_solid p) as [E|[H1 H2]].
  - rewrite E in Hne. cbn in Hne. lia.
  - repeat split; try assumption. apply quiet_Trim, Hq.
Qed.

(** ** Joining the paragraphs again *)

Section Rejoin.

(** A separator at which the paragraph break matches, with its capture *)
Variable sep : text.
Variable cap : text.
Hypothesis sep_break :
  forall r, solid_head r = true ->
    paragraph_break (sep ++ r) = Some (length sep, [cap]).
Hypothesis sep_nonempty : sep <> [].
Hypothesis cap_blank : blank cap = true.

Abbreviation kept :=
  (fun p : text => (0 <? length (Trim p)) && negb (only_newlines p)).

Lemma kept_whole (q : text) : whole q -> kept q = true.
Proof.
  intros (H1 & H2 & _). cbv beta.
  rewrite paragraph_filter, (Trim_fixed q H1 H2).
  destruct q; [discriminate | reflexivity].
Qed.

Lemma kept_cap : kept cap = false.
Proof.
  cbv beta. rewrite paragraph_filter, (Trim_blank cap cap_blank). reflexivity.
Qed.

Lemma Join_cons (q q' : text) (qs : list text) :
  Join sep (q :: q' :: qs) = q ++ sep ++ Join sep (q' :: qs).
Proof. reflexivity. Qed.

Lemma whole_nonempty (q : text) : whole q -> q <> [].
Proof. intros (H & _) ->. discriminate H. Qed.

Lemma Join_solid (qs : list text) :
  Forall whole qs -> qs <> [] ->
  solid_head (Join sep qs) = true /\ solid_head (rev (Join sep qs)) = true.
Proof.
  induction qs as [|q qs IH]; intros Hq Hne; [contradiction|].
  inversion Hq as [|? ? Hw Hqs]; subst.
  destruct qs as [|q' qs].
  - destruct Hw as (H1 & H2 & _). split; assumption.
  - destruct (IH Hqs ltac:(discriminate)) as [_ Hend].
    rewrite Join_cons. split.
    + rewrite solid_head_app by exact (whole_nonempty Hw). apply Hw.
    + rewrite !rev_app_distr, <- app_assoc.
      rewrite solid_head_app; [exact Hend|].
      intros E. rewrite E in Hend. discriminate Hend.
Qed.

(** Splitting the joined paragraphs gives them back, one capture between
    two of them. *)
Lemma split_Join (qs : list text) :
  Forall whole qs -> qs <> [] ->
  filter kept (Split_from paragraph_break 0 [] (Join sep qs)) = qs.
Proof.
  induction qs as [|q qs IH]; intros Hq Hne; [contradiction|].
  inversion Hq as [|? ? Hw Hqs]; subst.
  pose proof Hw as (H1 & H2 & H3).
  destruct qs as [|q' qs].
  - cbn [Join]. rewrite <- (app_nil_r q) at 1.
    rewrite Split_through_quiet by exact H3.
    cbn [Split_from]. rewrite app_nil_r, rev_involutive.
    cbn [filter]. rewrite (kept_whole Hw). reflexivity.
  - rewrite Join_cons.
    destruct (Join_solid Hqs ltac:(discriminate)) as [Hhead _].
    rewrite Split_through_quiet by (apply quiet_solid_end; assumption).
    rewrite app_nil_r.
    destruct sep as [|c sep'] eqn:Esep; [contradiction|].
    change ((c :: sep') ++ Join (c :: sep') (q' :: qs))
      with (c :: sep' ++ Join (c :: sep') (q' :: qs)).
    rewrite Split_from_here.
    change (c :: sep' ++ Join (c :: sep') (q' :: qs))
      with ((c :: sep') ++ Join (c :: sep') (q' :: qs)).
    rewrite (sep_break _ Hhead). cbn [length pred app].
    rewrite Split_from_skipn, skipn_app, skipn_all, Nat.sub_diag.
    cbn [app skipn]. rewrite rev_involutive.
    cbn [filter]. rewrite (kept_whole Hw), kept_cap.
    rewrite IH; [reflexivity | exact Hqs | discriminate].
Qed.

Lemma paragraphs_Join (qs : list text) :
  Forall whole qs -> paragraphs (Join sep qs) = qs.
Proof.
  intros Hq. destruct qs as [|q qs]; [reflexivity|].
  destruct (@Join_solid (q :: qs) Hq ltac:(discriminate)) as [H1 H2].
  unfold paragraphs. rewrite (Trim_fixed _ H1 H2).
  apply split_Join; [exact Hq | discriminate].
Qed.

End Rejoin.

Lemma LF_LF_break (r : text) :
  solid_head r = true ->
  paragraph_break ([LF; LF] ++ r) = Some (length [LF; LF], [[LF]]).
Proof.
  intros H. unfold paragraph_break.
  change (line_breaks ([LF; LF] ++ r)) with ([LF] :: [LF] :: line_breaks r).
  rewrite line_breaks_solid by (right; exact H). reflexivity.
Qed.

Lemma CRLF_CRLF_break (r : text) :
  solid_head r = true ->
  paragraph_break ([CR; LF; CR; LF] ++ r)
  = Some (length [CR; LF; CR; LF], [[CR; LF]]).
Proof.
  intros H. unfold paragraph_break.
  change (line_breaks ([CR; LF; CR; LF] ++ r))
    with ([CR; LF] :: [CR; LF] :: line_breaks r).
  rewrite line_breaks_solid by (right; exact H). reflexivity.
Qed.

(** C8.  Joining the trimmed paragraphs of a document by a double line
    break, of line feeds or of carriage return and line feed, and segmenting
    the result gives the same paragraphs again, hence the same paragraph
    count. *)
Theorem segmentation_idempotent (content : text) :
  let trimmed_paragraphs := map Trim (paragraphs content) in
  paragraphs (Join [LF; LF] trimmed_paragraphs) = trimmed_paragraphs
  /\ paragraphCount (Join [LF; LF] trimmed_paragraphs) = paragraphCount content
  /\ paragraphs (Join [CR; LF; CR; LF] trimmed_paragraphs) = trimmed_paragraphs
  /\ paragraphCount (Join [CR; LF; CR; LF] trimmed_paragraphs)
     = paragraphCount content.
Proof.
  intros qs. pose proof (paragraphs_whole content) as Hq. fold qs in Hq.
  assert (E1 : paragraphs (Join [LF; LF] qs) = qs).
  { apply (@paragraphs_Join [LF; LF] [LF] LF_LF_break);
      [discriminate | reflexivity | exact Hq]. }
  assert (E2 : paragraphs (Join [CR; LF; CR; LF] qs) = qs).
  { apply (@paragraphs_Join [CR; LF; CR; LF] [CR; LF] CRLF_CRLF_break);
      [discriminate | reflexivity | exact Hq]. }
  unfold paragraphCount. rewrite E1, E2.
  subst qs. rewrite length_map. repeat split; reflexivity.
Qed.

(** ** The segmentation, stated on the text *)

(** *** Line breaks, as the pattern reads them and as the text has them *)

Lemma two_breaks_here (b1 b2 r : text) :
  Spec.line_break b1 -> Spec.line_break b2 ->
  breaks_here (b1 ++ b2 ++ r) = true.
Proof. intros [-> | ->] [-> | ->]; reflexivity. Qed.

Lemma breaks_here_two (s : text) :
  breaks_here s = true ->
  exists b1 b2 rest,
    Spec.line_break b1 /\ Spec.line_break b2
    /\ line_breaks s = b1 :: b2 :: rest.
Proof.
  unfold breaks_here. intros H.
  pose proof (line_breaks_tokens s) as Ht.
  destruct (line_breaks s) as [|b1 [|b2 rest]]; try discriminate H.
  inversion Ht as [|? ? H1 Ht']; subst.
  inversion Ht' as [|? ? H2 _]; subst.
  exists b1, b2, rest. repeat split; assumption.
Qed.

Lemma line_breaks_prefix (s : text) :
  concat (line_breaks s) ++ skipn (length (concat (line_breaks s))) s = s.
Proof.
  induction s as [|c|c d r IH1 IH2] using text_ind2.
  - reflexivity.
  - rewrite line_breaks_cons.
    destruct (N.eqb_spec c LF) as [->|?]; [reflexivity|].
    destruct (N.eqb_spec c CR); reflexivity.
  - rewrite line_breaks_cons.
    destruct (N.eqb_spec c LF) as [->|?].
    { cbn [concat app length skipn]. f_equal. exact IH2. }
    destruct (N.eqb_spec c CR) as [->|?]; [|reflexivity].
    destruct (N.eqb_spec d LF) as [->|?]; [|reflexivity].
    cbn [concat app length skipn]. do 2 f_equal. exact IH1.
Qed.

Lemma line_breaks_blank (s : text) : blank (concat (line_breaks s)) = true.
Proof.
  pose proof (line_breaks_tokens s) as Ht.
  induction Ht as [|b bs Hb _ IH]; [reflexivity|].
  cbn [concat]. rewrite blank_app, IH.
  destruct Hb as [-> | ->]; reflexivity.
Qed.

Lemma run_of_break (s : text) :
  breaks_here s = true -> Spec.has_break_run (concat (line_breaks s)).
Proof.
  intros H. destruct (@breaks_here_two s H) as (b1 & b2 & rest & H1 & H2 & E).
  rewrite E. exists [], b1, b2, (concat rest). repeat split; assumption.
Qed.

Lemma no_run_nil : ~ Spec.has_break_run [].
Proof.
  intros (a & b1 & b2 & c & H1 & _ & E).
  destruct a; destruct H1 as [-> | ->]; discriminate E.
Qed.

Lemma run_tail (c : char) (s : text) :
  Spec.has_break_run s -> Spec.has_break_run (c :: s).
Proof.
  intros (a & b1 & b2 & r & H1 & H2 & ->).
  exists (c :: a), b1, b2, r. repeat split; assumption.
Qed.

Lemma run_inside (x y s : text) :
  Spec.has_break_run s -> Spec.has_break_run (x ++ s ++ y).
Proof.
  intros (a & b1 & b2 & r & H1 & H2 & ->).
  exists (x ++ a), b1, b2, (r ++ y). repeat split; try assumption.
  rewrite <- !app_assoc. reflexivity.
Qed.

(** A run that does not begin at the head of the text begins later. *)
Lemma run_later (c : char) (s t : text) :
  Spec.has_break_run (c :: s) -> breaks_here ((c :: s) ++ t) = false ->
  Spec.has_break_run s.
Proof.
  intros (a & b1 & b2 & r & H1 & H2 & E) Hb.
  destruct a as [|a0 a].
  - cbn [app] in E. rewrite E, <- !app_assoc in Hb.
    rewrite (@two_breaks_here b1 b2 _ H1 H2) in Hb. discriminate Hb.
  - injection E as _ ->. exists a, b1, b2, r. repeat split; assumption.
Qed.

(** No break starts in a text in which no run occurs, and conversely. *)
Lemma quiet_iff_no_run (p : text) : quiet p [] <-> ~ Spec.has_break_run p.
Proof.
  induction p as [|c p IH]; cbn [quiet].
  - split; [intros _; exact no_run_nil | trivial].
  - rewrite IH. split.
    + intros [Hb Hp] Hr. apply Hp. exact (@run_later c p [] Hr Hb).
    + intros Hn. split.
      * destruct (breaks_here ((c :: p) ++ [])) eqn:Hb; [|reflexivity].
        exfalso. apply Hn. rewrite app_nil_r in Hb.
        pose proof (@run_of_break _ Hb) as Hr.
        rewrite <- (line_breaks_prefix (c :: p)).
        rewrite <- (app_nil_l (concat _ ++ _)). apply run_inside, Hr.
      * intros Hr. apply Hn, run_tail, Hr.
Qed.

(** *** Paragraphs *)

Lemma solid_head_iff (p : text) :
  solid_head p = true <-> exists c r, p = c :: r /\ IsWhiteSpace c = false.
Proof.
  split.
  - destruct p as [|c r]; [discriminate|]. cbn [solid_head].
    intros H. exists c, r. split; [reflexivity | apply negb_true_iff, H].
  - intros (c & r & -> & H). cbn [solid_head]. rewrite H. reflexivity.
Qed.

Lemma solid_end_iff (p : text) :
  solid_head (rev p) = true
  <-> exists r c, p = r ++ [c] /\ IsWhiteSpace c = false.
Proof.
  rewrite solid_head_iff. split.
  - intros (c & r & E & H). exists (rev r), c. split; [|exact H].
    rewrite <- (rev_involutive p), E. reflexivity.
  - intros (r & c & -> & H). exists c, (rev r). split; [|exact H].
    rewrite rev_app_distr. reflexivity.
Qed.

Lemma paragraph_iff_whole (p : text) : Spec.paragraph p <-> whole p.
Proof.
  unfold Spec.paragraph, whole.
  rewrite <- solid_head_iff, <- solid_end_iff, quiet_iff_no_run. reflexivity.
Qed.

Lemma blank_Trim_nil (x : text) : Trim x = [] -> blank x = true.
Proof.
  intros E. destruct (Trim_split x) as (w1 & w2 & H1 & H2 & Hx).
  rewrite E in Hx. rewrite Hx, !blank_app, H1, H2. reflexivity.
Qed.

(** A piece of the split, trimmed, is a paragraph unless it is empty. *)
Lemma piece_paragraph (x : text) :
  quiet x [] -> Trim x <> [] -> Spec.paragraph (Trim x).
Proof.
  intros Hq Hne. apply paragraph_iff_whole.
  destruct (Trim_solid x) as [E|[H1 H2]]; [contradiction|].
  repeat split; try assumption. apply quiet_Trim, Hq.
Qed.

(** *** From the split to the layout of the text *)

Lemma segmentation_margin (w y : text) (ps : list text) :
  blank w = true -> Spec.segmentation y ps -> Spec.segmentation (w ++ y) ps.
Proof.
  intros Hw H. destruct H as [v Hv | v p ps t Hv Hp Ht].
  - apply Spec.segmentation_none. unfold Spec.whitespace_only in *.
    change (blank (w ++ v) = true). rewrite blank_app, Hw. exact Hv.
  - rewrite app_assoc. apply Spec.segmentation_first; try assumption.
    unfold Spec.whitespace_only in *.
    change (blank (w ++ v) = true). rewrite blank_app, Hw. exact Hv.
Qed.

Lemma remainder_of (w g y : text) (ps : list text) :
  blank w = true -> blank g = true -> Spec.has_break_run g ->
  Spec.segmentation y ps -> Spec.remainder ps (w ++ g ++ y).
Proof.
  intros Hw Hg Hr H. destruct H as [v Hv | v p ps t Hv Hp Ht].
  - apply Spec.remainder_end. unfold Spec.whitespace_only in *.
    change (blank (w ++ g ++ v) = true). rewrite !blank_app, Hw, Hg. exact Hv.
  - replace (w ++ g ++ v ++ p ++ t) with ((w ++ g ++ v) ++ p ++ t)
      by (rewrite <- !app_assoc; reflexivity).
    apply Spec.remainder_next; try assumption. split.
    + unfold Spec.whitespace_only in *.
      change (blank (w ++ g ++ v) = true). rewrite !blank_app, Hw, Hg. exact Hv.
    + apply run_inside, Hr.
Qed.

(** A piece, the run after it and the segmented rest of the text. *)
Lemma segmentation_glue (x g y : text) (ps : list text) :
  quiet x [] -> blank g = true -> Spec.has_break_run g ->
  Spec.segmentation y ps ->
  Spec.segmentation (x ++ g ++ y)
    ((if 0 <? length (Trim x) then [Trim x] else []) ++ ps).
Proof.
  intros Hq Hg Hr Hy. destruct (Trim x) as [|c r] eqn:E.
  - cbn [length Nat.ltb Nat.leb app]. rewrite app_assoc.
    apply segmentation_margin; [|exact Hy].
    rewrite blank_app, Hg, (@blank_Trim_nil x E). reflexivity.
  - cbn [length Nat.ltb Nat.leb app]. rewrite <- E.
    destruct (Trim_split x) as (w1 & w2 & H1 & H2 & Hx).
    rewrite Hx at 1. rewrite <- !app_assoc.
    apply Spec.segmentation_first.
    + exact H1.
    + apply piece_paragraph; [exact Hq | rewrite E; discriminate].
    + apply remainder_of; assumption.
Qed.

Lemma segmentation_last (x : text) :
  quiet x [] -> Spec.segmentation x (trimmed [x]).
Proof.
  intros Hq. rewrite trimmed_cons. change (trimmed []) with (@nil text).
  rewrite app_nil_r. destruct (Trim x) as [|c r] eqn:E.
  - cbn [length Nat.ltb Nat.leb].
    apply Spec.segmentation_none, (@blank_Trim_nil x E).
  - cbn [length Nat.ltb Nat.leb]. rewrite <- E.
    destruct (Trim_split x) as (w1 & w2 & H1 & H2 & Hx).
    rewrite Hx at 1.
    apply Spec.segmentation_first.
    + exact H1.
    + apply piece_paragraph; [exact Hq | rewrite E; discriminate].
    + apply Spec.remainder_end, H2.
Qed.

(** The pieces of the split, trimmed, segment the text that was split. *)
Lemma split_segmentation (s : text) :
  forall k cur, k = 0 \/ cur = [] -> quiet (rev cur) s ->
    Spec.segmentation (rev cur ++ skipn k s)
      (trimmed (Split_from break_run k cur s)).
Proof.
  induction s as [|c r IH]; intros k cur Hk Hq.
  - rewrite skipn_nil, app_nil_r.
    replace (Split_from break_run k cur []) with [rev cur]
      by (destruct k; reflexivity).
    apply segmentation_last, Hq.
  - destruct k as [|k].
    + cbn [skipn]. rewrite Split_from_here, break_run_eq.
      destruct (breaks_here (c :: r)) eqn:Hc.
      * cbn [app]. rewrite trimmed_cons.
        pose proof (line_breaks_prefix (c :: r)) as Hs.
        destruct (@breaks_here_two _ Hc) as (b1 & b2 & rest & H1 & H2 & E).
        assert (Hn : length (concat (line_breaks (c :: r)))
                     = S (pred (length (concat (line_breaks (c :: r)))))).
        { rewrite E. cbn [concat]. rewrite length_app.
          destruct H1 as [-> | ->]; cbn [length]; lia. }
        rewrite Hn in Hs. cbn [skipn] in Hs. rewrite <- Hs at 1.
        apply segmentation_glue.
        -- exact (@quiet_mono _ _ Hq).
        -- apply line_breaks_blank.
        -- apply run_of_break, Hc.
        -- apply (IH _ []); [right; reflexivity | exact I].
      * specialize (IH 0 (c :: cur) (or_introl eq_refl)).
        cbn [rev skipn] in IH. rewrite <- app_assoc in IH. apply IH.
        apply quiet_snoc; assumption.
    + destruct Hk as [Hk| ->]; [discriminate|].
      rewrite Split_from_skip. cbn [skipn].
      apply (IH k []); [right; reflexivity | exact I].
Qed.

Lemma paragraphs_split (content : text) :
  map Trim (paragraphs content) = trimmed (Split break_run content).
Proof.
  rewrite paragraphs_trimmed. unfold Split at 1.
  rewrite trimmed_without_captures.
  change (Split_from break_run 0 [] (Trim content))
    with (Split break_run (Trim content)).
  apply trimmed_split_Trim.
Qed.

(** *** From the layout of the text to the split *)

Lemma Split_run_through_quiet (t q : text) :
  forall cur, quiet q t ->
    Split_from break_run 0 cur (q ++ t)
    = Split_from break_run 0 (rev q ++ cur) t.
Proof.
  induction q as [|c q IH]; intros cur Hq; [reflexivity|].
  cbn [quiet] in Hq. destruct Hq as [Hc Hq].
  change ((c :: q) ++ t) with (c :: q ++ t) in *.
  rewrite Split_from_here, break_run_eq, Hc, (IH _ Hq).
  cbn [rev]. rewrite <- app_assoc. reflexivity.
Qed.

Lemma trimmed_whole (q : text) : whole q -> trimmed [q] = [q].
Proof.
  intros (H1 & H2 & _). rewrite trimmed_cons, (Trim_fixed q H1 H2).
  destruct q; [discriminate H1 | reflexivity].
Qed.

(** The scanner in a gap: the piece being read ends at the first run, and
    what is left of the gap is trimmed off the next piece. *)
Lemma gap_scan (s' : text) :
  solid_head s' = true ->
  forall g, blank g = true -> Spec.has_break_run g ->
  forall cur,
    trimmed (Split_from break_run 0 cur (g ++ s'))
    = trimmed [rev cur] ++ trimmed (Split_from break_run 0 [] s').
Proof.
  intros Hs. induction g as [|c g IH]; intros Hg Hr cur.
  - destruct (no_run_nil Hr).
  - cbn [blank forallb] in Hg. apply andb_true_iff in Hg as [Hc Hg].
    change ((c :: g) ++ s') with (c :: g ++ s').
    rewrite Split_from_here, break_run_eq.
    destruct (breaks_here (c :: g ++ s')) eqn:Hb.
    + cbn [app]. rewrite trimmed_cons, (trimmed_cons (rev cur) []).
      change (trimmed []) with (@nil text). rewrite app_nil_r. f_equal.
      apply (@split_leading s' (or_intror Hs) g Hg); [|reflexivity].
      pose proof (@line_breaks_within s' (or_intror Hs) (c :: g)) as Hn.
      cbn [app length] in Hn. lia.
    + rewrite (IH Hg (@run_later c g s' Hr Hb)). f_equal.
      cbn [rev]. rewrite !trimmed_cons, Trim_app_blank; [reflexivity|].
      cbn [blank forallb]. rewrite Hc. reflexivity.
Qed.

Lemma remainder_scan (ps : list text) (t : text) :
  Spec.remainder ps t ->
  forall q, whole q ->
    trimmed (Split_from break_run 0 [] (q ++ t)) = q :: ps.
Proof.
  induction 1 as [w Hw | g p ps t [Hg Hr] Hp Ht IH]; intros q Hq;
    pose proof Hq as (H1 & H2 & H3).
  - rewrite (@split_trailing w Hw q H2 0 []).
    + rewrite <- (app_nil_r q) at 1.
      rewrite (@Split_run_through_quiet [] q [] H3).
      cbn [Split_from]. rewrite app_nil_r, rev_involutive.
      apply trimmed_whole, Hq.
    + destruct q; [discriminate H1 | cbn; lia].
  - apply paragraph_iff_whole in Hp. pose proof Hp as (P1 & _).
    rewrite (@Split_run_through_quiet (g ++ p ++ t) q []);
      [|apply quiet_solid_end; assumption].
    rewrite gap_scan; try assumption.
    + rewrite app_nil_r, rev_involutive, (trimmed_whole Hq), (IH p Hp).
      reflexivity.
    + rewrite solid_head_app; [exact P1|]. intros ->. discriminate P1.
Qed.

Lemma segmentation_split (content : text) (ps : list text) :
  Spec.segmentation content ps -> trimmed (Split break_run content) = ps.
Proof.
  intros [w Hw | w p ps' t Hw Hp Ht]; unfold Split.
  - rewrite (@split_blank w Hw 0 []). reflexivity.
  - apply paragraph_iff_whole in Hp. pose proof Hp as (P1 & _).
    rewrite (@split_leading (p ++ t)); try assumption; try reflexivity.
    + exact (remainder_scan Ht Hp).
    + right. rewrite solid_head_app; [exact P1|]. intros ->. discriminate P1.
    + apply Nat.le_0_l.
Qed.

(** C6.  The paragraphs of the script, trimmed, are the one way to lay the
    document text out as paragraphs: whitespace, a first paragraph, and
    after each paragraph either whitespace to the end or a gap and the next
    paragraph, where a paragraph begins and ends with a character that is
    not whitespace and holds no two consecutive line breaks, and a gap is
    whitespace that holds two consecutive line breaks, each optionally
    preceded by a carriage return.  So the text is cut at every run of two
    or more line breaks and nowhere else, the chunks are trimmed, and the
    empty ones are dropped: no paragraph is empty.  The short paragraphs
    are counted as the trimmed paragraphs of fewer than 100 characters. *)
Theorem paragraph_segmentation (content : text) :
  (forall ps,
     Spec.segmentation content ps <-> ps = map Trim (paragraphs content))
  /\ Forall Spec.paragraph (map Trim (paragraphs content))
  /\ Forall (fun p => 0 < length (Trim p)) (paragraphs content)
  /\ shortParagraphCount content
     = Spec.short_paragraph_count (map Trim (paragraphs content)).
Proof.
  pose proof (paragraphs_nonempty content) as Hne.
  repeat match goal with |- _ /\ _ => split end.
  - intros ps. rewrite paragraphs_split. split.
    + intros H. symmetry. apply segmentation_split, H.
    + intros ->.
      exact (@split_segmentation content 0 [] (or_introl eq_refl) I).
  - apply Forall_forall. intros p Hp. apply paragraph_iff_whole.
    exact (proj1 (Forall_forall _ _) (paragraphs_whole content) p Hp).
  - exact Hne.
  - unfold shortParagraphCount, shortParagraphs, Spec.short_paragraph_count.
    rewrite <- map_filter_swap, length_map. f_equal.
    apply filter_ext_in. intros p Hp.
    rewrite Forall_forall in Hne. apply Hne, Nat.ltb_lt in Hp.
    rewrite Hp. apply andb_true_r.
Qed.

(** * The script beyond the claims *)

(** ** Counting by lines *)

Lemma starts_with_cut (p x r : text) (t : char) :
  forallb (fun c => negb (terminator c)) p = true -> terminator t = true ->
  starts_with p (x ++ t :: r) = starts_with p x.
Proof.
  intros Hp Ht. revert x. induction p as [|a p IH]; intros x; [reflexivity|].
  cbn [forallb] in Hp. apply andb_true_iff in Hp as [Ha Hp].
  destruct x as [|b x]; cbn [app starts_with].
  - destruct (N.eqb_spec a t) as [->|_]; [|reflexivity].
    rewrite Ht in Ha. discriminate Ha.
  - rewrite (IH Hp). reflexivity.
Qed.

Lemma alt_cut (ps : list text) (x r : text) (t : char) :
  plain ps = true -> terminator t = true ->
  alt ps (x ++ t :: r) = alt ps x.
Proof.
  intros Hps Ht. induction ps as [|p ps IH]; [reflexivity|].
  cbn [plain forallb] in Hps. apply andb_true_iff in Hps as [Hp Hps].
  cbn [alt]. rewrite starts_with_cut, (IH Hps); [reflexivity| |exact Ht].
  destruct p; [discriminate | exact Hp].
Qed.

Lemma alt_nil (ps : list text) : plain ps = true -> alt ps [] = None.
Proof.
  intros Hps. induction ps as [|p ps IH]; [reflexivity|].
  cbn [plain forallb] in Hps. apply andb_true_iff in Hps as [Hp Hps].
  destruct p; [discriminate|]. cbn [alt starts_with]. exact (IH Hps).
Qed.

Lemma starts_with_length (p x : text) :
  starts_with p x = true -> length p <= length x.
Proof.
  revert x. induction p as [|a p IH]; intros [|b x] H; cbn [length];
    try lia; [discriminate|].
  cbn [starts_with] in H. apply andb_true_iff in H as [_ H].
  specialize (IH _ H). lia.
Qed.

Lemma alt_length (ps : list text) (x : text) (n : nat) :
  alt ps x = Some n -> n <= length x.
Proof.
  induction ps as [|p ps IH]; [discriminate|]. cbn [alt].
  destruct (starts_with p x) eqn:E; [|exact IH].
  intros [= <-]. exact (@starts_with_length p x E).
Qed.

Lemma Matches_from_step (m : matcher) (k : nat) (c : char) (r : text) :
  Matches_from m (S k) (c :: r) = Matches_from m k r.
Proof. reflexivity. Qed.

(** A match does not reach across a line terminator. *)
Lemma Matches_cut (ps : list text) (r : text) (t : char) :
  plain ps = true -> terminator t = true ->
  forall l k, k <= length l ->
    Matches_from (alt ps) k (l ++ t :: r)
    = Matches_from (alt ps) k l + Matches_from (alt ps) 0 r.
Proof.
  intros Hps Ht. induction l as [|c l IH]; intros k Hk.
  - cbn [length] in Hk. replace k with 0 by lia. cbn [app].
    rewrite Matches_from_cons.
    change (t :: r) with ([] ++ t :: r).
    rewrite (@alt_cut ps [] r t Hps Ht), (@alt_nil ps Hps).
    reflexivity.
  - cbn [length] in Hk. destruct k as [|k].
    + change ((c :: l) ++ t :: r) with (c :: l ++ t :: r).
      rewrite !Matches_from_cons.
      change (c :: l ++ t :: r) with ((c :: l) ++ t :: r).
      rewrite (@alt_cut ps (c :: l) r t Hps Ht).
      destruct (alt ps (c :: l)) as [n|] eqn:E.
      * apply alt_length in E. cbn [length] in E.
        rewrite IH by lia. reflexivity.
      * apply IH. lia.
    + change ((c :: l) ++ t :: r) with (c :: l ++ t :: r).
      rewrite !Matches_from_step. apply IH. lia.
Qed.

Lemma MatchesCount_cut (ps : list text) (l r : text) (t : char) :
  plain ps = true -> terminator t = true ->
  MatchesCount (alt ps) (l ++ t :: r)
  = MatchesCount (alt ps) l + MatchesCount (alt ps) r.
Proof. intros Hps Ht. apply Matches_cut; [assumption|assumption|lia]. Qed.

Lemma MatchesCount_nil (m : matcher) : MatchesCount m [] = 0.
Proof. reflexivity. Qed.

(** The matches of a text are the matches of its lines. *)
Lemma Matches_by_lines_from (ps : list text) :
  plain ps = true ->
  forall n s cur, length s <= n ->
    list_sum (map (MatchesCount (alt ps)) (ReadLines_from cur s))
    = MatchesCount (alt ps) (rev cur ++ s).
Proof.
  intros Hps.
  assert (Hlf : terminator LF = true) by reflexivity.
  assert (Hcr : terminator CR = true) by reflexivity.
  assert (last_line : forall cur : text,
    list_sum (map (MatchesCount (alt ps))
                (match cur with [] => [] | _ :: _ => [rev cur] end))
    = MatchesCount (alt ps) (rev cur ++ [])).
  { intros [|a cur]; [reflexivity|]. rewrite app_nil_r.
    cbn [map list_sum fold_right]. lia. }
  induction n as [|n IH]; intros s cur Hn.
  - destruct s; [apply last_line | cbn in Hn; lia].
  - destruct s as [|a r]; [apply last_line|].
    cbn [length] in Hn. cbn [ReadLines_from].
    destruct (N.eqb_spec a LF) as [->|HnLF].
    { cbn [map]. change (list_sum (?x :: ?l)) with (x + list_sum l).
      rewrite IH by lia. rewrite MatchesCount_cut by assumption. reflexivity. }
    destruct (N.eqb_spec a CR) as [->|HnCR].
    { rewrite MatchesCount_cut by assumption. destruct r as [|d r'].
      - cbn [map list_sum fold_right]. rewrite MatchesCount_nil. reflexivity.
      - destruct (N.eqb_spec d LF) as [->|HdLF]; cbn [map];
          change (list_sum (?x :: ?l)) with (x + list_sum l);
          rewrite IH by (cbn [length] in *; lia); cbn [rev app].
        + change (LF :: r') with ([] ++ LF :: r').
          rewrite (@MatchesCount_cut ps [] r' LF Hps Hlf). reflexivity.
        + reflexivity. }
    rewrite IH by lia. cbn [rev]. rewrite <- app_assoc. reflexivity.
Qed.

Lemma Matches_by_lines (ps : list text) (s : text) :
  plain ps = true ->
  MatchesCount (alt ps) s
  = list_sum (map (MatchesCount (alt ps)) (ReadLines s)).
Proof.
  intros Hps. symmetry.
  exact (@Matches_by_lines_from ps Hps (length s) s [] (Nat.le_refl _)).
Qed.

Lemma IsMatch_count (ps : list text) (s : text) :
  plain ps = true -> IsMatch (alt ps) s = (0 <? MatchesCount (alt ps) s).
Proof.
  intros Hps. unfold MatchesCount. induction s as [|c r IH].
  - cbn [IsMatch]. rewrite (@alt_nil ps Hps). reflexivity.
  - cbn [IsMatch]. rewrite Matches_from_cons.
    destruct (alt ps (c :: r)); [reflexivity | exact IH].
Qed.


Section Hits.

Variable m : matcher.

Local Abbreviation hit := (fun h : MatchInfo => IsMatch m (snd h)).

Lemma numbered_In (ls : list text) :
  forall a k l,
    In (k, l) (combine (seq a (length ls)) ls)
    <-> a <= k /\ nth_error ls (k - a) = Some l.
Proof.
  induction ls as [|x ls IH]; intros a k l.
  - cbn. split; [contradiction|]. intros [_ H].
    destruct (k - a); discriminate H.
  - rewrite numbered_cons. cbn [In]. rewrite IH. split.
    + intros [[= <- <-]|[Hk Hn]].
      * rewrite Nat.sub_diag. split; [lia | reflexivity].
      * split; [lia|]. replace (k - a) with (S (k - S a)) by lia. exact Hn.
    + intros [Hk Hn]. destruct (Nat.eq_dec a k) as [<-|Hne].
      * rewrite Nat.sub_diag in Hn. injection Hn as <-. left. reflexivity.
      * right. split; [lia|].
        replace (k - a) with (S (k - S a)) in Hn by lia. exact Hn.
Qed.

Lemma hits_sorted (ls : list text) :
  forall a,
    StronglySorted lt (map fst (filter hit (combine (seq a (length ls)) ls)))
    /\ Forall (fun n => a <= n)
         (map fst (filter hit (combine (seq a (length ls)) ls))).
Proof.
  induction ls as [|x ls IH]; intros a.
  - split; constructor.
  - rewrite numbered_cons. destruct (IH (S a)) as [Hs Hf].
    assert (Hf' : Forall (fun n => a <= n)
              (map fst (filter hit (combine (seq (S a) (length ls)) ls)))).
    { eapply Forall_impl; [|exact Hf]. cbv beta. intros; lia. }
    cbn [filter]. destruct (IsMatch m (snd (a, x))); cbn [map fst].
    + split; constructor; try assumption; lia.
    + split; assumption.
Qed.

(** The hits of [Select-String]: every line in which the pattern matches,
    under its number counted from 1, in the order of the file. *)
Lemma SelectString_lines_gen (content : text) :
  (forall n l,
     In (n, l) (SelectString m content)
     <-> 1 <= n /\ nth_error (ReadLines content) (n - 1) = Some l
         /\ IsMatch m l = true)
  /\ StronglySorted lt (map fst (SelectString m content)).
Proof.
  unfold SelectString. split; [|apply hits_sorted].
  intros n l. rewrite filter_In, numbered_In. cbn [snd]. tauto.
Qed.

Variable weight : text -> nat.
Hypothesis weight_hit : forall l, IsMatch m l = (0 <? weight l).

Lemma selected_le_sum (ls : list text) :
  forall k,
    length (filter hit (combine (seq k (length ls)) ls))
    <= list_sum (map weight ls).
Proof.
  induction ls as [|l ls IH]; intros k; [apply Nat.le_refl|].
  rewrite numbered_cons. cbn [filter snd map].
  change (list_sum (?x :: ?r)) with (x + list_sum r).
  rewrite weight_hit. specialize (IH (S k)).
  destruct (Nat.ltb_spec 0 (weight l)); cbn [length]; lia.
Qed.

Lemma selected_nil_sum (ls : list text) :
  forall k,
    filter hit (combine (seq k (length ls)) ls) = []
    <-> list_sum (map weight ls) = 0.
Proof.
  induction ls as [|l ls IH]; intros k; [cbn; tauto|].
  rewrite numbered_cons. cbn [filter snd map].
  change (list_sum (?x :: ?r)) with (x + list_sum r).
  rewrite weight_hit. specialize (IH (S k)).
  destruct (Nat.ltb_spec 0 (weight l)).
  - split; [discriminate | lia].
  - rewrite IH. lia.
Qed.

End Hits.

Lemma SelectString_agrees (ps : list text) (content : text) :
  plain ps = true ->
  listing_agrees (SelectString (alt ps) content) (MatchesCount (alt ps) content).
Proof.
  intros Hps. unfold listing_agrees, SelectString.
  rewrite (@Matches_by_lines ps content Hps).
  split.
  - apply selected_le_sum. intros l. apply IsMatch_count, Hps.
  - apply selected_nil_sum. intros l. apply IsMatch_count, Hps.
Qed.

Lemma alt_app (ps qs : list text) (s : text) :
  alt (ps ++ qs) s = match alt ps s with Some n => Some n | None => alt qs s end.
Proof.
  induction ps as [|p ps IH]; [reflexivity|]. cbn [app alt].
  destruct (starts_with p s); [reflexivity | exact IH].
Qed.

Lemma IsMatch_alt_app (ps qs : list text) (s : text) :
  IsMatch (alt (ps ++ qs)) s = IsMatch (alt ps) s || IsMatch (alt qs) s.
Proof.
  induction s as [|c r IH]; cbn [IsMatch]; rewrite alt_app.
  - destruct (alt ps []), (alt qs []); reflexivity.
  - destruct (alt ps (c :: r)); [reflexivity|].
    destruct (alt qs (c :: r)); [symmetry; apply orb_true_r | exact IH].
Qed.

Lemma count_zero_app (ps qs : list text) (s : text) :
  plain ps = true -> plain qs = true ->
  MatchesCount (alt (ps ++ qs)) s = 0
  <-> MatchesCount (alt ps) s = 0 /\ MatchesCount (alt qs) s = 0.
Proof.
  intros Hp Hq.
  assert (Hpq : plain (ps ++ qs) = true).
  { unfold plain. rewrite forallb_app. unfold plain in Hp, Hq.
    rewrite Hp, Hq. reflexivity. }
  pose proof (IsMatch_alt_app ps qs s) as H.
  rewrite !IsMatch_count in H by assumption.
  destruct (Nat.ltb_spec 0 (MatchesCount (alt (ps ++ qs)) s)),
    (Nat.ltb_spec 0 (MatchesCount (alt ps) s)),
    (Nat.ltb_spec 0 (MatchesCount (alt qs) s)); cbn in H; try discriminate H; lia.
Qed.

(** X2.  The listings agree with the counts they stand beside: a listing of
    exclamation, dash, metaphor or double-adjective lines has no more rows
    than the pattern has matches, and it is empty exactly when the count is
    0; the hit lines of [er_shi|ni_hui] are [none] exactly when both counts
    are 0. *)
Theorem listings_agree_with_counts (content : text) :
  listing_agrees (exclHits content) (exclCount content)
  /\ listing_agrees (dashHits content) (dashCount content)
  /\ listing_agrees (metaphorHits content) (metaphorCount content)
  /\ listing_agrees (doubleAdjHits content) (doubleAdjCount content)
  /\ (hits content = [] <-> erShiCount content = 0 /\ niHuiCount content = 0).
Proof.
  repeat match goal with |- _ /\ _ => split end;
    try (apply SelectString_agrees; reflexivity).
  unfold hits, erShiCount, niHuiCount, count.
  rewrite <- (@count_zero_app [er_shi] [ni_hui] content eq_refl eq_refl).
  apply (@SelectString_agrees [er_shi; ni_hui] content eq_refl).
Qed.

(** X1.  Every count of the pattern table, taken on the whole text, is the
    sum of the counts of the lines of the file: no pattern of the table
    matches across a line terminator. *)
Theorem pattern_counts_by_lines (content : text) :
  Forall (fun entry =>
            count content (snd entry)
            = list_sum (map (MatchesCount (alt (snd entry)))
                          (ReadLines content)))
         patterns.
Proof.
  unfold patterns, count.
  repeat (constructor; [apply Matches_by_lines; reflexivity|]).
  constructor.
Qed.

(** ** The verdict as a whole *)

Lemma verdict_pass_iff (content : text) (cfg : Config) :
  verdict content cfg = true
  <-> erShiCount content <= 1
      /\ niHuiCount content = 0
      /\ (colonCount content cfg <= ColonBudget cfg)%Z
      /\ (ColonExceptionsQuoteOnly cfg = false
          \/ colonViolations content cfg = [])
      /\ shortParagraphCount content < 4
      /\ exclCount content <= 2
      /\ dashCount content <= 3
      /\ roadmarkCount content <= 2.
Proof.
  unfold verdict. rewrite Nat.eqb_eq, length_zero_iff_nil. split.
  - intros E.
    assert (H : forall x, ~ In x (issues content cfg)).
    { intros x. rewrite E. exact (fun F => F). }
    assert (Hq : ColonExceptionsQuoteOnly cfg = false
                 \/ colonViolations content cfg = []).
    { destruct (ColonExceptionsQuoteOnly cfg) eqn:Eq; [right | left; reflexivity].
      destruct (colonViolations content cfg) eqn:Ev; [reflexivity|].
      exfalso. apply (H colon_usage_issue), In_issues.
      rewrite Eq, Ev. do 3 right. left. repeat split. discriminate. }
    repeat split; try exact Hq.
    + destruct (Nat.le_gt_cases (erShiCount content) 1) as [L|G]; [exact L|].
      exfalso. apply (H (er_shi_issue content)), In_issues. tauto.
    + destruct (Nat.eq_dec (niHuiCount content) 0) as [L|G]; [exact L|].
      exfalso. apply (H (ni_hui_issue content)), In_issues.
      right. left. split; [lia | reflexivity].
    + destruct (Z.le_gt_cases (colonCount content cfg) (ColonBudget cfg))
        as [L|G]; [exact L|].
      exfalso. apply (H (budget_issue content cfg)), In_issues. tauto.
    + destruct (Nat.lt_ge_cases (shortParagraphCount content) 4) as [L|G];
        [exact L|].
      exfalso. apply (H (short_paragraphs_issue content)), In_issues. tauto.
    + destruct (Nat.le_gt_cases (exclCount content) 2) as [L|G]; [exact L|].
      exfalso. apply (H (exclamation_issue content)), In_issues. tauto.
    + destruct (Nat.le_gt_cases (dashCount content) 3) as [L|G]; [exact L|].
      exfalso. apply (H (dash_issue content)), In_issues. tauto.
    + destruct (Nat.le_gt_cases (roadmarkCount content) 2) as [L|G]; [exact L|].
      exfalso. apply (H (roadmark_issue content)), In_issues. tauto.
  - intros (H1 & H2 & H3 & H4 & H5 & H6 & H7 & H8).
    destruct (issues content cfg) as [|x l] eqn:E; [reflexivity|].
    assert (Hx : In x (issues content cfg)) by (rewrite E; left; reflexivity).
    apply In_issues in Hx.
    destruct Hx as [[? _]|[[? _]|[[? _]|[[[? ?] _]|[[? _]|[[? _]|[[? _]|[? _]]]]]]]];
      try lia.
    destruct H4 as [H4|H4]; congruence.
Qed.

Lemma colonCount_skip (content : text) (c1 c2 : Config) :
  (SkipTitleLine c1 = true -> SkipTitleLine c2 = true) ->
  (colonCount content c2 <= colonCount content c1)%Z.
Proof.
  intros H. unfold colonCount.
  destruct (SkipTitleLine c1); [rewrite (H eq_refl); lia|].
  destruct (SkipTitleLine c2); lia.
Qed.

Lemma colonHits_skip (content : text) (c1 c2 : Config) :
  (SkipTitleLine c1 = true -> SkipTitleLine c2 = true) ->
  incl (colonHits content c2) (colonHits content c1).
Proof.
  intros H. unfold colonHits.
  destruct (SkipTitleLine c1); [rewrite (H eq_refl); apply incl_refl|].
  cbn [andb].
  destruct (SkipTitleLine c2 && some_hits _); [|apply incl_refl].
  intros h Hh. apply filter_In in Hh. apply Hh.
Qed.

Lemma colonViolations_In (content : text) (cfg : Config) (h : MatchInfo) :
  In h (colonViolations content cfg)
  <-> ColonExceptionsQuoteOnly cfg = true
      /\ In h (colonHits content cfg)
      /\ IsMatch quoteOnlyPattern (snd h) = false.
Proof.
  unfold colonViolations.
  destruct (ColonExceptionsQuoteOnly cfg); cbn [andb].
  - destruct (colonHits content cfg) as [|x l] eqn:E; cbn [some_hits].
    + cbn. tauto.
    + rewrite filter_In, negb_true_iff. tauto.
  - cbn. intuition discriminate.
Qed.

(** X3.  Loosening the parameters never turns PASS into FAIL: with a budget
    at least as large, the quote-only check switched on only where it was
    on, and the title skipped wherever it was skipped, a text that passed
    still passes. *)
Theorem permissive_config_keeps_pass (content : text) (c1 c2 : Config) :
  (ColonBudget c1 <= ColonBudget c2)%Z ->
  (ColonExceptionsQuoteOnly c2 = true -> ColonExceptionsQuoteOnly c1 = true) ->
  (SkipTitleLine c1 = true -> SkipTitleLine c2 = true) ->
  verdict content c1 = true -> verdict content c2 = true.
Proof.
  intros Hb Hq Hs. rewrite !verdict_pass_iff.
  intros (H1 & H2 & H3 & H4 & H5 & H6 & H7 & H8).
  pose proof (colonCount_skip content c1 c2 Hs).
  repeat split; try assumption; try lia.
  destruct (ColonExceptionsQuoteOnly c2) eqn:E2; [right | left; reflexivity].
  destruct H4 as [H4|H4]; [rewrite (Hq eq_refl) in H4; discriminate|].
  destruct (colonViolations content c2) as [|h l] eqn:Ev; [reflexivity|].
  exfalso.
  assert (Hh : In h (colonViolations content c2)) by (rewrite Ev; left; reflexivity).
  apply colonViolations_In in Hh as (_ & Hin & Hex).
  assert (Hh1 : In h (colonViolations content c1)).
  { apply colonViolations_In. repeat split; try assumption; auto.
    exact (colonHits_skip content c1 c2 Hs h Hin). }
  rewrite H4 in Hh1. exact Hh1.
Qed.

(** X3 at a line of quoted speech, from the default parameters to a larger
    budget without the quote-only check and without the title. *)
Lemma permissive_config_keeps_pass_witness :
  verdict speech_line
    {| ColonBudget := 5; ColonExceptionsQuoteOnly := false;
       SkipTitleLine := true |} = true.
Proof.
  apply (@permissive_config_keeps_pass speech_line default_config
           {| ColonBudget := 5; ColonExceptionsQuoteOnly := false;
              SkipTitleLine := true |}).
  - cbn. lia.
  - intros _. reflexivity.
  - intros _. reflexivity.
  - vm_compute. reflexivity.
Defined.

(** ** The exempt lines *)

Lemma starts_with_iff (p s : text) :
  starts_with p s = true <-> exists r, s = p ++ r.
Proof.
  revert s. induction p as [|a p IH]; intros s.
  - split; [exists s; reflexivity | reflexivity].
  - destruct s as [|b s]; cbn [starts_with].
    + split; [discriminate | intros [r E]; discriminate E].
    + rewrite andb_true_iff, N.eqb_eq, IH. split.
      * intros [-> [r ->]]. exists r. reflexivity.
      * intros [r [= -> ->]]. split; [reflexivity | exists r; reflexivity].
Qed.

Lemma alt_some_iff (ps : list text) (s : text) :
  alt ps s <> None <-> exists p, In p ps /\ starts_with p s = true.
Proof.
  induction ps as [|p ps IH]; cbn [alt In].
  - split; [congruence | intros (p & [] & _)].
  - destruct (starts_with p s) eqn:E.
    + split; [exists p; auto | discriminate].
    + rewrite IH. split.
      * intros (q & Hq & Hs). exists q. auto.
      * intros (q & [->|Hq] & Hs); [congruence | exists q; auto].
Qed.

Lemma IsMatch_iff (m : matcher) (l : text) :
  IsMatch m l = true <-> exists a b, l = a ++ b /\ m b <> None.
Proof.
  induction l as [|c l IH]; cbn [IsMatch].
  - destruct (m []) eqn:E.
    + split; [exists [], []; split; [reflexivity | congruence] | reflexivity].
    + split; [discriminate|]. intros (a & b & Hab & Hm).
      symmetry in Hab. apply app_eq_nil in Hab as [-> ->]. congruence.
  - destruct (m (c :: l)) eqn:E.
    + split; [|reflexivity]. exists [], (c :: l). split; [reflexivity | congruence].
    + rewrite IH. split.
      * intros (a & b & -> & Hm). exists (c :: a), b. auto.
      * intros (a & b & Hab & Hm). destruct a as [|c' a].
        -- cbn [app] in Hab. subst b. congruence.
        -- injection Hab as -> ->. exists a, b. auto.
Qed.

Lemma quote_solid (q : char) : is_quote q = true -> IsWhiteSpace q = false.
Proof.
  unfold is_quote. rewrite !orb_true_iff, !N.eqb_eq.
  intros [[->| ->]| ->]; reflexivity.
Qed.

Lemma colon_then_quote_iff (s : text) :
  colon_then_quote s <> None
  <-> exists w1 w2 q r,
        s = w1 ++ colonChar :: w2 ++ q :: r
        /\ blank w1 = true /\ blank w2 = true /\ is_quote q = true.
Proof.
  unfold colon_then_quote. split.
  - destruct (TrimStart_split s) as (w1 & Hw1 & Hs & _).
    destruct (TrimStart s) as [|c s2]; [congruence|].
    destruct (N.eqb_spec c colonChar) as [->|]; [|congruence].
    destruct (TrimStart_split s2) as (w2 & Hw2 & Hs2 & _).
    destruct (TrimStart s2) as [|q s4]; [congruence|].
    destruct (is_quote q) eqn:Hq; [|congruence].
    intros _. exists w1, w2, q, s4. rewrite Hs, Hs2. auto.
  - intros (w1 & w2 & q & r & -> & H1 & H2 & Hq).
    rewrite (TrimStart_blank_app w1 _ H1). cbn [TrimStart].
    change (IsWhiteSpace colonChar) with false. cbv iota.
    rewrite N.eqb_refl, (TrimStart_blank_app w2 _ H2). cbn [TrimStart].
    rewrite (quote_solid q Hq), Hq. discriminate.
Qed.

Lemma quoteOnlyPattern_some_iff (s : text) :
  quoteOnlyPattern s <> None
  <-> alt (removelast speech_verbs) s <> None
      \/ (starts_with (last speech_verbs []) s = true
          /\ colon_then_quote (skipn (length (last speech_verbs [])) s) <> None).
Proof.
  unfold quoteOnlyPattern.
  destruct (alt (removelast speech_verbs) s) as [n|].
  { split; [left|]; congruence. }
  destruct (starts_with (last speech_verbs []) s).
  { destruct (colon_then_quote _) as [n|].
    - split; [|congruence].
      intros _. right. split; [reflexivity | congruence].
    - split; [congruence|]. intros [H|[_ H]]; congruence. }
  split; [congruence|]. intros [H|[H _]]; congruence.
Qed.

Lemma exempt_shapes_match (l : text) :
  (exists v a b, In v (removelast speech_verbs) /\ l = a ++ v ++ b)
  \/ (exists a w1 w2 q b,
        l = a ++ last speech_verbs [] ++ w1 ++ colonChar :: w2 ++ q :: b
        /\ blank w1 = true /\ blank w2 = true /\ is_quote q = true) ->
  IsMatch quoteOnlyPattern l = true.
Proof.
  rewrite IsMatch_iff.
  intros [(v & a & b & Hin & ->)|(a & w1 & w2 & q & b & -> & H1 & H2 & Hq)].
  - exists a, (v ++ b). split; [reflexivity|].
    apply quoteOnlyPattern_some_iff. left. apply alt_some_iff.
    exists v. split; [exact Hin|]. apply starts_with_iff. exists b. reflexivity.
  - exists a, (last speech_verbs [] ++ w1 ++ colonChar :: w2 ++ q :: b).
    split; [reflexivity|]. apply quoteOnlyPattern_some_iff. right. split.
    + apply starts_with_iff. eexists. reflexivity.
    + rewrite skipn_app, skipn_all, Nat.sub_diag. cbn [app skipn].
      apply colon_then_quote_iff. exists w1, w2, q, b. auto.
Qed.

(** X4.  A colon line is exempt exactly in two cases: it holds one of the
    first six speech verbs anywhere, with or without a colon after it; or it
    holds the seventh verb followed by optional whitespace, the full-width
    colon, optional whitespace and an opening quotation mark.  The seven
    verbs are not treated alike, because the alternation of the pattern is
    not grouped. *)
Theorem exempt_line_iff (l : text) :
  IsMatch quoteOnlyPattern l = true
  <-> (exists v a b, In v (removelast speech_verbs) /\ l = a ++ v ++ b)
      \/ (exists a w1 w2 q b,
            l = a ++ last speech_verbs [] ++ w1 ++ colonChar :: w2 ++ q :: b
            /\ blank w1 = true /\ blank w2 = true /\ is_quote q = true).
Proof.
  split; [|apply exempt_shapes_match].
  rewrite IsMatch_iff.
  intros (a & s & -> & Hm). apply quoteOnlyPattern_some_iff in Hm.
  destruct Hm as [Hm|[Hv Hc]].
  - apply alt_some_iff in Hm as (v & Hin & Hs).
    apply starts_with_iff in Hs as [b ->]. left. exists v, a, b. auto.
  - apply starts_with_iff in Hv as [r ->].
    rewrite skipn_app, skipn_all, Nat.sub_diag in Hc. cbn [app skipn] in Hc.
    apply colon_then_quote_iff in Hc as (w1 & w2 & q & b & -> & H1 & H2 & Hq).
    right. exists a, w1, w2, q, b. auto.
Qed.

(** X5.  A line in which one of the seven speech verbs is followed by
    optional whitespace, the full-width colon, optional whitespace and an
    opening quotation mark is never listed as a colon violation, whatever
    the parameters and the rest of the file. *)
Theorem quoted_speech_is_no_violation
    (content : text) (cfg : Config) (n : nat)
    (v a w1 w2 b : text) (q : char) :
  In v speech_verbs -> blank w1 = true -> blank w2 = true ->
  is_quote q = true ->
  ~ In (n, a ++ v ++ w1 ++ colonChar :: w2 ++ q :: b)
       (colonViolations content cfg).
Proof.
  intros Hv H1 H2 Hq Hin.
  apply colonViolations_In in Hin as (_ & _ & Hex). cbn [snd] in Hex.
  assert (E : IsMatch quoteOnlyPattern
                (a ++ v ++ w1 ++ colonChar :: w2 ++ q :: b) = true);
    [|congruence].
  apply exempt_shapes_match.
  assert (Hcase : In v (removelast speech_verbs) \/ v = last speech_verbs []).
  { cbn in Hv |- *. intuition (subst; auto). }
  destruct Hcase as [Hb| ->].
  - left. exists v, a, (w1 ++ colonChar :: w2 ++ q :: b). auto.
  - right. exists a, w1, w2, q, b. auto.
Qed.

(** X5 at the first of three lines of quoted speech. *)
Lemma quoted_speech_is_no_violation_witness :
  ~ In (1, [] ++ [shuo] ++ [] ++ colonChar :: [] ++ quoteChar :: [hao; 0x201d%N])
       (colonViolations three_speech_lines default_config).
Proof.
  apply (@quoted_speech_is_no_violation three_speech_lines default_config 1
           [shuo] [] [] [] [hao; 0x201d%N] quoteChar).
  - simpl. auto.
  - reflexivity.
  - reflexivity.
  - reflexivity.
Defined.

(** ** Paragraph statistics *)

Lemma Trim_nonblank (s : text) : blank s = false -> Trim s <> [].
Proof.
  intros Hb E. destruct (Trim_split s) as (w1 & w2 & H1 & H2 & Hs).
  rewrite E in Hs. cbn [app] in Hs. rewrite Hs, blank_app, H1, H2 in Hb.
  discriminate Hb.
Qed.

Lemma Trim_length (s : text) : length (Trim s) <= length s.
Proof.
  destruct (Trim_split s) as (w1 & w2 & _ & _ & Hs).
  rewrite Hs at 2. rewrite !length_app. lia.
Qed.

Lemma prepend_cons (x : text) (l : list text) :
  exists h t, prepend x l = (x ++ h) :: t.
Proof.
  destruct l as [|h t]; cbn [prepend].
  - exists [], []. rewrite app_nil_r. reflexivity.
  - exists h, t. reflexivity.
Qed.

Lemma paragraphs_blank (content : text) :
  blank content = true -> paragraphs content = [].
Proof.
  intros H. unfold paragraphs. rewrite (Trim_blank content H). reflexivity.
Qed.

Lemma paragraphs_nonblank (content : text) :
  blank content = false -> paragraphs content <> [].
Proof.
  intros Hb. unfold paragraphs.
  pose proof (Trim_nonblank content Hb) as Hne.
  destruct (Trim_solid content) as [E|[Hs _]]; [contradiction|].
  destruct (Trim content) as [|c r]; [contradiction|].
  unfold Split. rewrite Split_from_here, paragraph_break_eq.
  unfold breaks_here. rewrite line_breaks_solid by (right; exact Hs).
  change (2 <=? length (@nil (list N))) with false. cbv iota.
  rewrite Split_from_prepend.
  destruct (prepend_cons (rev [c]) (Split_from paragraph_break 0 [] r))
    as (h & t & ->).
  cbn [rev app filter]. rewrite paragraph_filter.
  assert (Hc : blank (c :: h) = false).
  { cbn [solid_head] in Hs. apply negb_true_iff in Hs.
    cbn [blank forallb]. rewrite Hs. reflexivity. }
  pose proof (Trim_nonblank (c :: h) Hc) as Ht.
  destruct (Trim (c :: h)); [contradiction | discriminate].
Qed.

Lemma list_sum_ge_length (A : Type) (f : A -> nat) (l : list A) :
  Forall (fun x => 0 < f x) l -> length l <= list_sum (map f l).
Proof.
  induction 1 as [|x l Hx _ IH]; [apply Nat.le_refl|].
  cbn [map length]. change (list_sum (?a :: ?r)) with (a + list_sum r). lia.
Qed.

Lemma list_sum_filter_le (A : Type) (f : A -> nat) (P : A -> bool) (l : list A) :
  list_sum (map f (filter P l)) <= list_sum (map f l).
Proof.
  induction l as [|x l IH]; [apply Nat.le_refl|]. cbn [filter map].
  destruct (P x); cbn [map];
    change (list_sum (?a :: ?r)) with (a + list_sum r); lia.
Qed.

Lemma list_sum_map_le (A : Type) (f g : A -> nat) (l : list A) :
  (forall x, f x <= g x) -> list_sum (map f l) <= list_sum (map g l).
Proof.
  intros H. induction l as [|x l IH]; [apply Nat.le_refl|]. cbn [map].
  change (list_sum (?a :: ?r)) with (a + list_sum r).
  specialize (H x). lia.
Qed.

Lemma last_length_le (bs : list text) :
  length (last bs []) <= length (concat bs).
Proof.
  induction bs as [|b bs IH]; [apply Nat.le_refl|].
  cbn [concat]. rewrite length_app. destruct bs as [|b' bs'].
  - cbn. lia.
  - change (last (b :: b' :: bs') []) with (last (b' :: bs') []). lia.
Qed.

(** The pieces of a split are taken from the text, none twice. *)
Lemma pieces_length (s : text) :
  forall k cur,
    list_sum (map (@length N) (Split_from paragraph_break k cur s)) + k
    <= length cur + Nat.max k (length s).
Proof.
  induction s as [|c r IH]; intros k cur.
  - cbn [Split_from map length]. change (list_sum [?a]) with (a + 0).
    rewrite length_rev. lia.
  - destruct k as [|k].
    + rewrite Split_from_here, paragraph_break_eq.
      destruct (breaks_here (c :: r)).
      * cbn [app map]. change (list_sum (?a :: ?x)) with (a + list_sum x).
        change (list_sum (?a :: ?x)) with (a + list_sum x).
        rewrite length_rev.
        pose proof (last_length_le (line_breaks (c :: r))) as Hcap.
        pose proof (@line_breaks_within [] (or_introl eq_refl) (c :: r)) as Hn.
        rewrite app_nil_r in Hn.
        specialize (IH (pred (length (concat (line_breaks (c :: r))))) []).
        cbn [length] in *. lia.
      * specialize (IH 0 (c :: cur)). cbn [length] in *. lia.
    + rewrite Split_from_skip. specialize (IH k cur). cbn [length]. lia.
Qed.

Lemma paragraph_totals (content : text) :
  paragraphCount content <= totalParaChars content
  /\ totalParaChars content <= charCount content.
Proof.
  split.
  - rewrite totalParaChars_sum. unfold paragraphCount.
    apply list_sum_ge_length, paragraphs_nonempty.
  - rewrite totalParaChars_sum. unfold charCount, paragraphs.
    etransitivity; [apply (list_sum_map_le _ (@length N)), Trim_length|].
    etransitivity; [apply list_sum_filter_le|].
    pose proof (pieces_length (Trim content) 0 []) as Hp.
    pose proof (Trim_length content). unfold Split. cbn [length] in Hp. lia.
Qed.

Lemma average_bounds (content : text) :
  avgParaLen content <= totalParaChars content
  /\ (paragraphCount content = 0 \/ 1 <= avgParaLen content).
Proof.
  pose proof (paragraph_totals content) as [H1 _].
  unfold avgParaLen.
  destruct (Nat.ltb_spec 0 (paragraphCount content)) as [Hn|Hn];
    [|split; [apply Nat.le_0_l | left; lia]].
  pose proof (MathRound_nearest (totalParaChars content) Hn) as (Hlo & Hhi & _).
  split; [nia | right; nia].
Qed.

(** X6.  The paragraph figures of the report are ordered: the short
    paragraphs are among the paragraphs, every paragraph has a character, the
    paragraphs together have no more characters than the file, the average
    length is at most the total, and it is at least 1 as soon as there is a
    paragraph. *)
Theorem paragraph_statistics_bounds (content : text) :
  shortParagraphCount content <= paragraphCount content
  /\ paragraphCount content <= totalParaChars content
  /\ totalParaChars content <= charCount content
  /\ avgParaLen content <= totalParaChars content
  /\ (paragraphCount content = 0 \/ 1 <= avgParaLen content).
Proof.
  pose proof (paragraph_totals content) as [H1 H2].
  pose proof (average_bounds content) as [H3 H4].
  repeat split; try assumption.
  unfold shortParagraphCount, shortParagraphs, paragraphCount.
  apply filter_length_le.
Qed.

(** X7.  The script finds no paragraph exactly in a text of whitespace
    only, the empty text included; and exactly then the average paragraph
    length, and the total of the paragraph lengths, are 0. *)
Theorem no_paragraph_iff_blank (content : text) :
  (paragraphCount content = 0 <-> blank content = true)
  /\ (avgParaLen content = 0 <-> blank content = true)
  /\ (totalParaChars content = 0 <-> blank content = true).
Proof.
  assert (H0 : paragraphCount content = 0 <-> blank content = true).
  { unfold paragraphCount. rewrite length_zero_iff_nil. split.
    - intros E. destruct (blank content) eqn:Hb; [reflexivity|].
      destruct (paragraphs_nonblank content Hb E).
    - apply paragraphs_blank. }
  pose proof (paragraph_totals content) as [H1 _].
  pose proof (average_bounds content) as [H3 H4].
  repeat split; try apply H0.
  - intros E. apply H0. lia.
  - intros Hb. apply H0 in Hb. unfold avgParaLen. rewrite Hb. reflexivity.
  - intros E. apply H0. lia.
  - intros Hb. rewrite totalParaChars_sum.
    rewrite (paragraphs_blank content Hb). reflexivity.
Qed.

(** ** The title line *)

(** X8.  With [SkipTitleLine], the colon count held against the budget is
    the number of colons on the lines after the first when the file has two
    lines or more; for a file of one line, [$lines[0]] is the first character
    of that line and only a colon at the very start is left out.  The count
    is never negative. *)
Theorem title_adjusted_colon_count (content : text) (cfg : Config) :
  SkipTitleLine cfg = true ->
  colonCount content cfg
  = Z.of_nat
      match ReadLines content with
      | [] => 0
      | [l] => count_occ N.eq_dec l colonChar
               - count_occ N.eq_dec (firstn 1 l) colonChar
      | _ :: rest => occurrences colonChar rest
      end
  /\ (0 <= colonCount content cfg)%Z.
Proof.
  intros Hs. destruct colonChar_not_terminator as [Hlf Hcr].
  assert (E : colonCount content cfg
    = Z.of_nat
      match ReadLines content with
      | [] => 0
      | [l] => count_occ N.eq_dec l colonChar
               - count_occ N.eq_dec (firstn 1 l) colonChar
      | _ :: rest => occurrences colonChar rest
      end); [|split; [exact E | rewrite E; lia]].
  unfold colonCount, count. rewrite Hs, !MatchesCount_char.
  rewrite <- (ReadLines_occurrences Hlf Hcr content). unfold firstLine.
  destruct (ReadLines content) as [|l [|l2 rest]].
  - reflexivity.
  - rewrite occurrences_cons. change (occurrences colonChar []) with 0.
    assert (count_occ N.eq_dec (firstn 1 l) colonChar
            <= count_occ N.eq_dec l colonChar).
    { rewrite <- (firstn_skipn 1 l) at 2. rewrite count_occ_app. lia. }
    lia.
  - rewrite (occurrences_cons colonChar l). lia.
Qed.

(** X8 at three lines with a colon each. *)
Lemma title_adjusted_colon_count_witness :
  colonCount three_speech_lines skip_title_config
  = Z.of_nat
      match ReadLines three_speech_lines with
      | [] => 0
      | [l] => count_occ N.eq_dec l colonChar
               - count_occ N.eq_dec (firstn 1 l) colonChar
      | _ :: rest => occurrences colonChar rest
      end
  /\ (0 <= colonCount three_speech_lines skip_title_config)%Z.
Proof.
  apply (@title_adjusted_colon_count three_speech_lines skip_title_config).
  reflexivity.
Defined.

(** ** Bounds of the counts *)

Lemma alt_min (L : nat) (ps : list text) (x : text) (n : nat) :
  forallb (fun p => L <=? length p) ps = true ->
  alt ps x = Some n -> L <= n.
Proof.
  intros Hps. induction ps as [|p ps IH]; [discriminate|].
  cbn [forallb] in Hps. apply andb_true_iff in Hps as [Hp Hps].
  cbn [alt]. destruct (starts_with p x); [|exact (IH Hps)].
  intros [= <-]. apply Nat.leb_le, Hp.
Qed.

(** Matches do not overlap: matches of [L] characters or more, taken
    together, fit into the text. *)
Lemma Matches_fit (L : nat) (ps : list text) :
  forallb (fun p => L <=? length p) ps = true ->
  forall s k,
    L * Matches_from (alt ps) k s + Nat.min k (length s) <= length s.
Proof.
  intros Hps. induction s as [|c r IH]; intros k.
  - cbn. lia.
  - destruct k as [|k].
    + rewrite Matches_from_cons. destruct (alt ps (c :: r)) as [n|] eqn:E.
      * pose proof (alt_min _ _ _ Hps E) as Hmin.
        apply alt_length in E. cbn [length] in *.
        specialize (IH (pred n)). nia.
      * specialize (IH 0). cbn [length] in *. lia.
    + rewrite Matches_from_step. specialize (IH k). cbn [length]. lia.
Qed.

Lemma Matches_le_occ (c : char) (p : text) (s : text) :
  forall k, Matches_from (alt [c :: p]) k s <= count_occ N.eq_dec s c.
Proof.
  induction s as [|a r IH]; intros k; [apply Nat.le_refl|].
  cbn [count_occ]. destruct k as [|k].
  - rewrite Matches_from_cons. cbn [alt starts_with].
    destruct (N.eqb_spec c a) as [->|Hne]; cbn [andb].
    + destruct (N.eq_dec a a); [|congruence].
      destruct (starts_with p r); [apply le_n_S, IH|].
      etransitivity; [apply IH | lia].
    + destruct (N.eq_dec a c); [congruence | apply IH].
  - rewrite Matches_from_step. destruct (N.eq_dec a c);
      (etransitivity; [apply IH | lia]).
Qed.

(** X9.  No count exceeds the number of characters; the counts of the
    two-character patterns [er_shi], [ni_hui], of the double dash and of the
    roadmark terms are at most half of it; and [ni_hui] is counted at most
    as often as [ni]. *)
Theorem pattern_count_bounds (content : text) :
  Forall (fun entry => count content (snd entry) <= charCount content) patterns
  /\ 2 * erShiCount content <= charCount content
  /\ 2 * dashCount content <= charCount content
  /\ 2 * roadmarkCount content <= charCount content
  /\ niHuiCount content <= count content [ni].
Proof.
  assert (H : forall L ps, forallb (fun p => L <=? length p) ps = true ->
                L * count content ps <= charCount content).
  { intros L ps Hps. unfold count, MatchesCount, charCount.
    pose proof (Matches_fit L ps Hps content 0). lia. }
  repeat split.
  - unfold patterns.
    repeat (constructor;
            [cbn [snd]; rewrite <- (Nat.mul_1_l (count _ _));
             apply H; reflexivity|]).
    constructor.
  - apply H. reflexivity.
  - apply H. reflexivity.
  - apply H. reflexivity.
  - unfold niHuiCount, count. rewrite (MatchesCount_char (hd 0%N ni)).
    apply Matches_le_occ.
Qed.

(** ** The lines of a text *)


Lemma single_line_app (a b : text) :
  single_line (a ++ b) = single_line a && single_line b.
Proof. apply forallb_app. Qed.

Lemma single_line_rev (a : text) : single_line (rev a) = single_line a.
Proof.
  induction a as [|c a IH]; [reflexivity|].
  cbn [rev]. rewrite single_line_app, IH. cbn. rewrite andb_true_r.
  apply andb_comm.
Qed.

Lemma not_terminator (c : char) :
  (c =? LF)%N = false -> (c =? CR)%N = false -> negb (terminator c) = true.
Proof. intros H1 H2. unfold terminator. rewrite H1, H2. reflexivity. Qed.

Lemma ReadLines_from_facts :
  forall n s cur, length s <= n -> single_line cur = true ->
    Forall (fun l => single_line l = true) (ReadLines_from cur s)
    /\ concat (ReadLines_from cur s)
       = rev cur ++ filter (fun c => negb (terminator c)) s
    /\ length (ReadLines_from cur s)
       <= length s + (match cur with [] => 0 | _ :: _ => 1 end).
Proof.
  assert (Hend : forall cur : text, single_line cur = true ->
    Forall (fun l => single_line l = true)
           (match cur with [] => [] | _ :: _ => [rev cur] end)
    /\ concat (match cur with [] => [] | _ :: _ => [rev cur] end)
       = rev cur ++ []
    /\ length (match cur with [] => [] | _ :: _ => [rev cur] end)
       <= 0 + (match cur with [] => 0 | _ :: _ => 1 end)).
  { intros [|a cur] Hc; [split; [|split]; constructor|].
    split; [|split].
    - constructor; [rewrite single_line_rev; exact Hc | constructor].
    - cbn [concat]. reflexivity.
    - cbn. lia. }
  induction n as [|n IH]; intros s cur Hn Hc.
  - destruct s; [apply Hend, Hc | cbn in Hn; lia].
  - destruct s as [|a r]; [apply Hend, Hc|].
    cbn [length] in Hn. cbn [ReadLines_from filter].
    assert (Hrev : single_line (rev cur) = true)
      by (rewrite single_line_rev; exact Hc).
    destruct (N.eqb_spec a LF) as [->|HnLF].
    { destruct (IH r [] ltac:(lia) eq_refl) as (F & C & L).
      change (negb (terminator LF)) with false. cbv iota.
      split; [|split].
      - constructor; assumption.
      - cbn [concat]. rewrite C. reflexivity.
      - cbn [length] in *. destruct cur; lia. }
    destruct (N.eqb_spec a CR) as [->|HnCR].
    { change (negb (terminator CR)) with false. cbv iota.
      destruct r as [|d r'].
      - split; [|split].
        + constructor; [assumption | constructor].
        + cbn [concat filter]. reflexivity.
        + cbn. lia.
      - destruct (N.eqb_spec d LF) as [->|HdLF].
        + destruct (IH r' [] ltac:(cbn [length] in *; lia) eq_refl)
            as (F & C & L).
          cbn [filter]. change (negb (terminator LF)) with false. cbv iota.
          split; [|split].
          * constructor; assumption.
          * cbn [concat]. rewrite C. reflexivity.
          * cbn [length] in *. destruct cur; lia.
        + destruct (IH (d :: r') [] ltac:(lia) eq_refl) as (F & C & L).
          split; [|split].
          * constructor; assumption.
          * cbn [concat]. rewrite C. reflexivity.
          * cbn [length] in *. destruct cur; lia. }
    assert (Ha : negb (terminator a) = true).
    { apply not_terminator; apply N.eqb_neq; assumption. }
    rewrite Ha.
    destruct (IH r (a :: cur) ltac:(lia)) as (F & C & L).
    { cbn [single_line forallb]. rewrite Ha. exact Hc. }
    split; [|split].
    + exact F.
    + rewrite C. cbn [rev]. rewrite <- app_assoc. reflexivity.
    + cbn [length] in *. lia.
Qed.

(** X10.  The lines read from the file hold no line terminator, their
    concatenation is the text without its terminators, in order, and there
    are no more lines than characters. *)
Theorem lines_drop_only_terminators (content : text) :
  Forall (fun l => single_line l = true) (ReadLines content)
  /\ concat (ReadLines content)
     = filter (fun c => negb (terminator c)) content
  /\ lineCount content <= charCount content.
Proof.
  destruct (@ReadLines_from_facts (length content) content []
              (Nat.le_refl _) eq_refl) as (F & C & L).
  repeat split; [exact F | exact C |].
  unfold lineCount, charCount, ReadLines. lia.
Qed.

Lemma ReadLines_from_line (l : text) :
  single_line l = true ->
  forall cur rest,
    ReadLines_from cur (l ++ LF :: rest)
    = (rev cur ++ l) :: ReadLines_from [] rest
    /\ ReadLines_from cur (l ++ CR :: LF :: rest)
       = (rev cur ++ l) :: ReadLines_from [] rest.
Proof.
  induction l as [|c l IH]; intros Hl cur rest.
  - cbn. rewrite app_nil_r. split; reflexivity.
  - cbn [single_line forallb] in Hl. apply andb_true_iff in Hl as [Hc Hl].
    unfold terminator in Hc. apply negb_true_iff, orb_false_iff in Hc.
    destruct Hc as [H1 H2].
    cbn [app ReadLines_from]. rewrite H1, H2.
    destruct (IH Hl (c :: cur) rest) as [E1 E2]. rewrite E1, E2.
    cbn [rev]. rewrite <- app_assoc. split; reflexivity.
Qed.

Lemma ReadLines_from_last (l : text) :
  single_line l = true ->
  forall cur,
    ReadLines_from cur l
    = match cur, l with [], [] => [] | _, _ => [rev cur ++ l] end.
Proof.
  induction l as [|c l IH]; intros Hl cur.
  - cbn [ReadLines_from]. rewrite app_nil_r. destruct cur; reflexivity.
  - cbn [single_line forallb] in Hl. apply andb_true_iff in Hl as [Hc Hl].
    unfold terminator in Hc. apply negb_true_iff, orb_false_iff in Hc.
    destruct Hc as [H1 H2].
    cbn [ReadLines_from]. rewrite H1, H2, (IH Hl (c :: cur)).
    cbn [rev]. rewrite <- app_assoc. destruct cur; reflexivity.
Qed.

(** X11.  Lines written with a line feed, or with a carriage return and a
    line feed, after each of them are read back as they were; what follows
    the last terminator is one more line, unless it is empty. *)
Theorem terminated_lines_read_back (ls : list text) (l' : text) :
  Forall (fun l => single_line l = true) ls ->
  single_line l' = true ->
  ReadLines (concat (map (fun l => l ++ [LF]) ls) ++ l')
  = ls ++ (match l' with [] => [] | _ :: _ => [l'] end)
  /\ ReadLines (concat (map (fun l => l ++ [CR; LF]) ls) ++ l')
     = ls ++ (match l' with [] => [] | _ :: _ => [l'] end).
Proof.
  intros Hls Hl'. unfold ReadLines.
  induction Hls as [|l ls Hl Hls IH].
  - cbn [map concat app]. rewrite (@ReadLines_from_last l' Hl' []).
    destruct l'; split; reflexivity.
  - destruct IH as [IH1 IH2]. cbn [map concat].
    rewrite <- !app_assoc. cbn [app].
    destruct (@ReadLines_from_line l Hl []
                (concat (map (fun l => l ++ [LF]) ls) ++ l')) as [E1 _].
    destruct (@ReadLines_from_line l Hl []
                (concat (map (fun l => l ++ [CR; LF]) ls) ++ l')) as [_ E2].
    rewrite E1, E2, IH1, IH2. split; reflexivity.
Qed.

(** X11 at three terminated lines, the second one empty, and a tail. *)
Lemma terminated_lines_read_back_witness :
  ReadLines (concat (map (fun l => l ++ [LF]) [str "ab"; []; str "c"])
             ++ str "d")
  = [str "ab"; []; str "c"] ++ [str "d"]
  /\ ReadLines (concat (map (fun l => l ++ [CR; LF]) [str "ab"; []; str "c"])
                ++ str "d")
     = [str "ab"; []; str "c"] ++ [str "d"].
Proof.
  apply (@terminated_lines_read_back [str "ab"; []; str "c"] (str "d")).
  - repeat constructor.
  - reflexivity.
Defined.

(** ** The rows of the report *)

(** A row that is not a verdict line: it differs from both within the first
    three characters. *)
Local Abbreviation plain_row :=
  (fun l : text =>
     issue_tag l <> issue_tag (str "  PASS")
     /\ issue_tag l <> issue_tag (str "  FAIL")).

Ltac row :=
  split; unfold issue_tag;
  first [ rewrite firstn_str_app by (vm_compute; lia)
        | rewrite app_assoc, firstn_str_app by (vm_compute; lia)
        | idtac ];
  vm_compute; intros E; discriminate E.

Ltac rows := repeat (constructor; [row|]); try constructor.

Lemma hit_rows (hs : list MatchInfo) : Forall plain_row (map hit_line hs).
Proof.
  apply Forall_forall. intros l Hl. apply in_map_iff in Hl as (h & <- & _).
  unfold hit_line. row.
Qed.

Lemma hit_rows_or (b : bool) (hs : list MatchInfo) (l : text) :
  plain_row l -> Forall plain_row (if b then map hit_line hs else [l]).
Proof.
  intros Hl.
  destruct b; [apply hit_rows | constructor; [exact Hl | constructor]].
Qed.

Lemma rows_before_verdict (Path content : text) (cfg : Config) :
  exists pre post,
    report Path content cfg
    = pre ++ (if verdict content cfg then str "  PASS" else str "  FAIL")
          :: post
    /\ Forall plain_row pre /\ Forall plain_row post.
Proof.
  exists (header_section Path content ++ paragraph_section content cfg
          ++ pattern_counts_section content ++ hit_lines_section content
          ++ colon_lines_section content cfg
          ++ colon_violations_section content cfg
          ++ exclamation_section content ++ dash_section content
          ++ metaphor_section content ++ double_adj_section content
          ++ [ []; str "===== Result =====" ]),
         (if verdict content cfg then []
          else map (fun issue => str "  - " ++ issue) (issues content cfg)).
  split; [|split].
  - unfold report, result_section, verdict. rewrite <- !app_assoc.
    repeat f_equal. destruct (length (issues content cfg) =? 0); reflexivity.
  - rewrite !Forall_app. repeat split.
    + unfold header_section. rows.
    + unfold paragraph_section. rows.
    + unfold pattern_counts_section, patterns. cbn [map fst snd]. rows.
    + unfold hit_lines_section. apply Forall_app; split; [rows|].
      apply hit_rows_or. row.
    + unfold colon_lines_section. apply Forall_app; split; [rows|].
      apply hit_rows_or. row.
    + unfold colon_violations_section. constructor; [row|].
      destruct (0 <? _); [constructor; [row | apply hit_rows] | constructor].
    + unfold exclamation_section. constructor; [row|].
      destruct (some_hits _); [constructor; [row | apply hit_rows] | constructor].
    + unfold dash_section. constructor; [row|].
      destruct (3 <? _); [constructor; [row|] | constructor].
      destruct (some_hits _); [apply hit_rows | constructor].
    + unfold metaphor_section. apply Forall_app; split; [rows|].
      destruct (0 <? _); [apply hit_rows | constructor].
    + unfold double_adj_section. constructor; [row|].
      destruct (0 <? _); [|constructor].
      constructor; [row|]. constructor; [row | apply hit_rows].
    + rows.
  - destruct (verdict content cfg); [constructor|].
    apply Forall_forall. intros l Hl. apply in_map_iff in Hl as (h & <- & _).
    row.
Qed.

(** X12.  The report has a row [  PASS] exactly when the verdict is PASS
    and a row [  FAIL] exactly when it is FAIL: no path, no hit line and no
    other row of the report reads as a verdict. *)
Theorem verdict_line_of_report (Path content : text) (cfg : Config) :
  (In (str "  PASS") (report Path content cfg) <-> verdict content cfg = true)
  /\ (In (str "  FAIL") (report Path content cfg)
      <-> verdict content cfg = false).
Proof.
  destruct (rows_before_verdict Path content cfg)
    as (pre & post & -> & Hpre & Hpost).
  assert (Hno : forall p,
            p = str "  PASS" \/ p = str "  FAIL" ->
            In p pre \/ In p post -> False).
  { intros p Hp [Hin|Hin];
      [ apply (proj1 (Forall_forall _ _) Hpre) in Hin
      | apply (proj1 (Forall_forall _ _) Hpost) in Hin ];
      destruct Hin as [H1 H2]; destruct Hp as [->| ->]; congruence. }
  split; rewrite in_app_iff; cbn [In]; split.
  - intros [H|[H|H]].
    + exfalso. apply (Hno (str "  PASS")); auto.
    + destruct (verdict content cfg); [reflexivity | discriminate H].
    + exfalso. apply (Hno (str "  PASS")); auto.
  - intros ->. auto.
  - intros [H|[H|H]].
    + exfalso. apply (Hno (str "  FAIL")); auto.
    + destruct (verdict content cfg); [discriminate H | reflexivity].
    + exfalso. apply (Hno (str "  FAIL")); auto.
  - intros ->. auto.
Qed.

(** ** One row, one line *)

Lemma single_line_uint (d : Decimal.uint) :
  single_line (str (NilEmpty.string_of_uint d)) = true.
Proof. induction d; cbn [NilEmpty.string_of_uint]; try reflexivity; exact IHd. Qed.

Lemma single_line_dec (z : Z) : single_line (dec z) = true.
Proof.
  unfold dec, NilZero.string_of_int, NilZero.string_of_uint.
  destruct (Z.to_int z) as [d|d]; destruct d;
    try reflexivity; apply single_line_uint.
Qed.

Lemma single_line_Trim (l : text) :
  single_line l = true -> single_line (Trim l) = true.
Proof.
  intros Hl. destruct (Trim_split l) as (w1 & w2 & _ & _ & E).
  rewrite E, !single_line_app in Hl.
  apply andb_true_iff in Hl as [_ Hl]. apply andb_true_iff in Hl as [Hl _].
  exact Hl.
Qed.

Ltac one_line :=
  rewrite ?single_line_app;
  repeat match goal with
         | |- _ && _ = true => apply andb_true_intro; split
         end;
  first [ assumption
        | apply single_line_dec
        | apply single_line_Trim; assumption
        | match goal with
          | |- single_line (str _) = true => reflexivity
          | |- single_line [] = true => reflexivity
          | |- single_line double_adj = true => reflexivity
          end ].

Ltac one_lines := repeat (constructor; [one_line|]); try constructor.

(** Hits whose lines are lines of the file. *)
Local Abbreviation from_lines content :=
  (fun hs : list MatchInfo =>
     forall h, In h hs -> In (snd h) (ReadLines content)).

Lemma SelectString_from_lines (m : matcher) (content : text) :
  from_lines content (SelectString m content).
Proof.
  intros [n l] H. apply filter_In in H as [H _].
  apply in_combine_r in H. exact H.
Qed.

Lemma colonHits_from_lines (content : text) (cfg : Config) :
  from_lines content (colonHits content cfg).
Proof.
  intros h. unfold colonHits. cbv zeta.
  destruct (SkipTitleLine cfg && _); [rewrite filter_In; intros [H _]|intros H];
    exact (SelectString_from_lines _ _ _ H).
Qed.

Lemma colonViolations_from_lines (content : text) (cfg : Config) :
  from_lines content (colonViolations content cfg).
Proof.
  intros h. unfold colonViolations.
  destruct (ColonExceptionsQuoteOnly cfg && _); [|contradiction].
  rewrite filter_In. intros [H _]. exact (colonHits_from_lines _ _ _ H).
Qed.

Lemma hit_lines_single (content : text) (hs : list MatchInfo) :
  from_lines content hs ->
  Forall (fun l => single_line l = true) (map hit_line hs).
Proof.
  intros Hhs. apply Forall_forall. intros l Hl.
  apply in_map_iff in Hl as (h & <- & Hh).
  assert (Hs : single_line (snd h) = true).
  { destruct (@ReadLines_from_facts (length content) content []
                (Nat.le_refl _) eq_refl) as (F & _).
    exact (proj1 (Forall_forall _ _) F _ (Hhs h Hh)). }
  unfold hit_line. one_line.
Qed.

Lemma issues_single (content : text) (cfg : Config) :
  Forall (fun l => single_line l = true)
         (map (fun issue => str "  - " ++ issue) (issues content cfg)).
Proof.
  apply Forall_forall. intros l Hl. apply in_map_iff in Hl as (i & <- & Hi).
  rewrite single_line_app. apply andb_true_intro. split; [reflexivity|].
  issue_cases Hi; subst i;
    [ unfold er_shi_issue | unfold ni_hui_issue | unfold budget_issue
    | unfold colon_usage_issue | unfold short_paragraphs_issue
    | unfold exclamation_issue | unfold dash_issue | unfold roadmark_issue ];
    one_line.
Qed.

(** X13.  When the path holds no line terminator, no row of the report
    does: every [Write-Output] of the script gives one line of output. *)
Theorem report_rows_are_single_lines (Path content : text) (cfg : Config) :
  single_line Path = true ->
  Forall (fun l => single_line l = true) (report Path content cfg).
Proof.
  intros HP.
  assert (Hs : forall m,
            Forall (fun l => single_line l = true)
                   (map hit_line (SelectString m content))).
  { intros m.
    exact (@hit_lines_single content _ (@SelectString_from_lines m content)). }
  pose proof (Hs (alt [er_shi; ni_hui])) as H1.
  pose proof (@hit_lines_single content _
                (colonHits_from_lines content cfg)) as H2.
  pose proof (@hit_lines_single content _
                (colonViolations_from_lines content cfg)) as H3.
  pose proof (Hs (alt [[exclChar]])) as H4.
  pose proof (Hs (alt [dashPattern])) as H5.
  pose proof (Hs (alt metaphor_markers)) as H6.
  pose proof (Hs (alt [double_adj])) as H7.
  unfold report. rewrite !Forall_app. repeat split.
  - unfold header_section. one_lines.
  - unfold paragraph_section. one_lines.
  - unfold pattern_counts_section, patterns. cbn [map fst snd]. one_lines.
  - unfold hit_lines_section. apply Forall_app; split; [one_lines|].
    destruct (some_hits _); [exact H1 | one_lines].
  - unfold colon_lines_section. apply Forall_app; split; [one_lines|].
    destruct (some_hits _); [exact H2 | one_lines].
  - unfold colon_violations_section. constructor; [reflexivity|].
    destruct (0 <? _); [constructor; [one_line | exact H3] | constructor].
  - unfold exclamation_section. constructor; [reflexivity|].
    destruct (some_hits _); [constructor; [one_line | exact H4] | constructor].
  - unfold dash_section. constructor; [reflexivity|].
    destruct (3 <? _); [constructor; [one_line|] | constructor].
    destruct (some_hits _); [exact H5 | constructor].
  - unfold metaphor_section. apply Forall_app; split; [one_lines|].
    destruct (0 <? _); [exact H6 | constructor].
  - unfold double_adj_section. constructor; [reflexivity|].
    destruct (0 <? _); [|constructor].
    constructor; [one_line|]. constructor; [one_line | exact H7].
  - unfold result_section. apply Forall_app; split; [one_lines|].
    destruct (length _ =? 0); [one_lines|].
    constructor; [reflexivity | apply issues_single].
Qed.

(** X13 at the sample file of three lines. *)
Lemma report_rows_are_single_lines_witness :
  Forall (fun l => single_line l = true)
         (report (str "a.txt") three_speech_lines default_config).
Proof.
  apply (@report_rows_are_single_lines (str "a.txt") three_speech_lines
           default_config).
  reflexivity.
Defined.

(** ** Headings *)

Local Abbreviation hashes := (starts_with (str "##")).
Local Abbreviation hash_lines cur s :=
  (length (filter hashes (ReadLines_from cur s))).
Local Abbreviation flag b := (if b then 1 else 0).

Lemma heading_matches_cons (bol : bool) (c : char) (r : text) :
  heading_matches bol (c :: r)
  = flag (bol && match c :: r with
                 | a :: b :: w :: _ =>
                     (a =? 0x23)%N && (b =? 0x23)%N && IsWhiteSpace w
                 | _ => false
                 end)
    + heading_matches (c =? LF)%N r.
Proof. reflexivity. Qed.

Lemma heading_start (s : text) :
  match s with
  | a :: b :: w :: _ => (a =? 0x23)%N && (b =? 0x23)%N && IsWhiteSpace w
  | _ => false
  end = true -> hashes s = true.
Proof.
  destruct s as [|a [|b [|w r]]]; try discriminate.
  intros H. apply andb_true_iff in H as [H _].
  apply andb_true_iff in H as [Ha Hb].
  apply N.eqb_eq in Ha, Hb. subst. reflexivity.
Qed.

Lemma hashes_cut (x r : text) (t : char) :
  terminator t = true -> hashes (x ++ t :: r) = hashes x.
Proof. intros Ht. apply starts_with_cut; [reflexivity | exact Ht]. Qed.

Lemma filter_length_cons (l : text) (ls : list text) :
  length (filter hashes (l :: ls)) = flag (hashes l) + length (filter hashes ls).
Proof. cbn [filter]. destruct (hashes l); reflexivity. Qed.

Lemma headings_from :
  forall n s, length s <= n ->
    heading_matches true s <= hash_lines [] s
    /\ forall cur,
         heading_matches false s + flag (hashes (rev cur ++ s))
         <= hash_lines cur s.
Proof.
  assert (Hlf : terminator LF = true) by reflexivity.
  assert (Hcr : terminator CR = true) by reflexivity.
  induction n as [|n IH]; intros s Hn.
  { destruct s; [|cbn in Hn; lia]. split; [apply Nat.le_refl|].
    intros cur. rewrite app_nil_r. cbn [heading_matches ReadLines_from].
    destruct cur; [apply Nat.le_refl|].
    rewrite filter_length_cons. cbn [filter length]. lia. }
  destruct s as [|c r].
  { split; [apply Nat.le_refl|].
    intros cur. rewrite app_nil_r. cbn [heading_matches ReadLines_from].
    destruct cur; [apply Nat.le_refl|].
    rewrite filter_length_cons. cbn [filter length]. lia. }
  cbn [length] in Hn.
  destruct (IH r ltac:(lia)) as [IHA IHB].
  rewrite !heading_matches_cons. cbn [andb]. cbn [ReadLines_from].
  destruct (N.eqb_spec c LF) as [->|HnLF].
  { split.
    - rewrite filter_length_cons.
      destruct r as [|b [|w r']]; cbn [N.eqb Pos.eqb LF andb] in *; lia.
    - intros cur. rewrite filter_length_cons, hashes_cut by exact Hlf. lia. }
  destruct (N.eqb_spec c CR) as [->|HnCR].
  { assert (Hr : heading_matches false r <= hash_lines [] r).
    { specialize (IHB []). cbn [rev app] in IHB. lia. }
    assert (Hgoal : forall cur,
      heading_matches false r + flag (hashes (rev cur))
      <= length (filter hashes
           match r with
           | [] => [rev cur]
           | d :: r' =>
               if (d =? LF)%N then rev cur :: ReadLines_from [] r'
               else rev cur :: ReadLines_from [] r
           end)).
    { intros cur. destruct r as [|d r'].
      - rewrite filter_length_cons. cbn [heading_matches filter length]. lia.
      - destruct (N.eqb_spec d LF) as [->|HdLF];
          rewrite filter_length_cons; [|lia].
        rewrite heading_matches_cons. cbn [andb]. change (LF =? LF)%N with true.
        destruct (IH r' ltac:(cbn [length] in *; lia)) as [IHA' _]. lia. }
    split.
    - specialize (Hgoal []). cbn [rev] in Hgoal.
      change (hashes []) with false in Hgoal.
      destruct r as [|b [|w r']]; cbn [N.eqb Pos.eqb CR LF andb rev] in *; lia.
    - intros cur. rewrite hashes_cut by exact Hcr. apply Hgoal. }
  split.
  - specialize (IHB [c]). cbn [rev app] in IHB.
    match goal with
    | |- (if ?b then 1 else 0) + _ <= _ =>
        assert (Hb : b = true -> hashes (c :: r) = true)
          by exact (heading_start (c :: r));
        destruct b; [rewrite Hb in IHB by reflexivity|]
    end; lia.
  - intros cur. specialize (IHB (c :: cur)). cbn [rev] in IHB.
    rewrite <- app_assoc in IHB. exact IHB.
Qed.

(** X14.  The heading count is at most the number of lines of the file
    that start with [##], and so at most the number of lines. *)
Theorem headings_are_hash_lines (content : text) :
  headingCount content
  <= length (filter (starts_with (str "##")) (ReadLines content))
  /\ headingCount content <= lineCount content.
Proof.
  destruct (@headings_from (length content) content (Nat.le_refl _)) as [H _].
  split; [exact H|].
  unfold lineCount. etransitivity; [exact H | apply filter_length_le].
Qed.
